(** * yellow-scraper.py: a shallow embedding and its properties

    The script fetches the result pages of a directory search one after the
    other, keeps the listings that carry no website link and writes them to
    a CSV file.  Python values are embedded as follows.

    - A [str] is the list of its Unicode code points.
    - An exception that leaves a function is a value [Raise e] of [outcome].
    - A parsed page (a BeautifulSoup tree) is a [node].
    - The network is a function from URLs to responses; the files of the
      working directory and the console are a [world] that is passed along.
    - The [while] loop of [scrape_yellow_pages] gets a step budget; running
      out of it is the result [None]. *)

From Stdlib Require Import NArith ZArith String Ascii.
From stdpp Require Import base option list gmap.

Local Open Scope N_scope.

(** ** Strings *)

Abbreviation str := (list N).

(** The code points of an ASCII literal. *)
Definition py (s : string) : str := N_of_ascii <$> list_ascii_of_string s.

(** [str.isspace] on one code point: what [str.strip()] removes. *)
Definition isspace (c : N) : bool :=
  ((9 <=? c) && (c <=? 13)) || ((28 <=? c) && (c <=? 32))
  || (c =? 133) || (c =? 160) || (c =? 5760)
  || ((8192 <=? c) && (c <=? 8202))
  || (c =? 8232) || (c =? 8233) || (c =? 8239) || (c =? 8287) || (c =? 12288).

Fixpoint lstrip_by (p : N → bool) (s : str) : str :=
  match s with
  | c :: s' => if p c then lstrip_by p s' else s
  | [] => []
  end.

Definition rstrip_by (p : N → bool) (s : str) : str :=
  reverse (lstrip_by p (reverse s)).

Definition strip_by (p : N → bool) (s : str) : str :=
  rstrip_by p (lstrip_by p s).

(** [s.strip()] *)
Definition strip (s : str) : str := strip_by isspace s.

(** Truth value of a string, and of a string-or-[None]. *)
Definition truthy (o : option str) : bool :=
  match o with
  | Some (_ :: _) => true
  | _ => false
  end.

(** ** Exceptions *)

Inductive exn : Type :=
| SystemExit (code : Z)
| AttributeError
| ValueError
| UnicodeEncodeError
| OSError.

Inductive outcome (A : Type) : Type :=
| Ok (a : A)
| Raise (e : exn).

Arguments Ok {A} a.
Arguments Raise {A} e.

#[global] Instance outcome_ret : MRet outcome := λ A, Ok.
#[global] Instance outcome_fmap : FMap outcome := λ A B f m,
  match m with
  | Ok a => Ok (f a)
  | Raise e => Raise e
  end.
#[global] Instance outcome_bind : MBind outcome := λ A B f m,
  match m with
  | Ok a => f a
  | Raise e => Raise e
  end.

(** A [for] loop whose body may raise: the body maps the loop state and the
    current item to the next loop state. *)
Fixpoint for_each {A S : Type} (body : S → A → outcome S) (l : list A) (s : S)
  : outcome S :=
  match l with
  | [] => Ok s
  | x :: l' => s' ← body s x; for_each body l' s'
  end.

(** ** The document tree of BeautifulSoup *)

(** A [Tag] has a name, the list bs4 keeps for its multi-valued [class]
    attribute, its other attributes as a dictionary, and its children.  A
    [Comment] stands for the strings [.text] leaves out. *)
#[warnings="-register-all"]
Inductive node : Type :=
| NavigableString (s : str)
| Comment (s : str)
| Tag (name : str) (classes : list str) (attrs : gmap str str)
      (contents : list node).

(** [tag.descendants]: every node below [n], in document order. *)
Fixpoint descendants (n : node) : list node :=
  match n with
  | Tag _ _ _ contents => flat_map (λ c, c :: descendants c) contents
  | _ => []
  end.

(** Does [n] match [find(name, class_=cls)]? *)
Definition matches (name cls : str) (n : node) : bool :=
  match n with
  | Tag name' classes _ _ => bool_decide (name' = name) && bool_decide (cls ∈ classes)
  | _ => false
  end.

(** [n.find_all(name, class_=cls)] *)
Definition find_all (name cls : str) (n : node) : list node :=
  List.filter (matches name cls) (descendants n).

(** [n.find(name, class_=cls)]: the first match or [None]. *)
Definition find (name cls : str) (n : node) : option node :=
  head (find_all name cls n).

(** [n.text] *)
Definition text (n : node) : str :=
  match n with
  | NavigableString s => s
  | Comment s => s
  | Tag _ _ _ _ =>
      mjoin (omap (λ d, match d with NavigableString s => Some s | _ => None end)
                  (descendants n))
  end.

(** [n.get(key)] *)
Definition get (key : str) (n : node) : option str :=
  match n with
  | Tag _ _ attrs _ => attrs !! key
  | _ => None
  end.

(** [x.text] where [x] is the result of a [find]: on [None] the attribute
    access raises. *)
Definition text_of (x : option node) : outcome str :=
  match x with
  | Some n => Ok (text n)
  | None => Raise AttributeError
  end.

(** ** parse_restaurants *)

Abbreviation listing := (str * str)%type.

Definition no_phone : str := py "No phone number available".

(** The three lookups the loop body makes in a listing block. *)
Definition name_element (restaurant_info : node) : option node :=
  find (py "a") (py "business-name") restaurant_info.

Definition website_link (restaurant_info : node) : option node :=
  find (py "a") (py "track-visit-website") restaurant_info.

Definition phone_element (restaurant_info : node) : option node :=
  find (py "div") (py "phones") restaurant_info.

Definition restaurant_name (restaurant_info : node) : outcome str :=
  strip <$> text_of (name_element restaurant_info).

Definition phone_number (restaurant_info : node) : str :=
  match phone_element restaurant_info with
  | Some e => strip (text e)
  | None => no_phone
  end.

(** The body of the [for] loop; [restaurants] is the list built so far. *)
Definition parse_restaurant (restaurants : list listing) (restaurant_info : node)
  : outcome (list listing) :=
  match restaurant_name restaurant_info with
  | Raise e => Raise e
  | Ok restaurant_name =>
      let website_link := website_link restaurant_info in
      let phone_number := phone_number restaurant_info in
      match website_link with
      | None => Ok (restaurants ++ [(restaurant_name, phone_number)])
      | Some _ => Ok restaurants
      end
  end.

Definition parse_restaurants (soup : node) : outcome (list listing) :=
  let restaurants := [] in
  let restaurant_list := find_all (py "div") (py "info") soup in
  for_each parse_restaurant restaurant_list restaurants.

(** The listing blocks of a page. *)
Abbreviation listing_blocks soup := (find_all (py "div") (py "info") soup).

(** ** urllib.parse: urljoin *)

(** [c in s] for one character. *)
Definition contains (c : N) (s : str) : bool := existsb (N.eqb c) s.

(** [s.find(c, start)], with [None] for -1. *)
Fixpoint find_from (c : N) (start : nat) (s : str) : option nat :=
  match s, start with
  | [], _ => None
  | x :: s', O => if x =? c then Some O else S <$> find_from c O s'
  | _ :: s', S start' => S <$> find_from c start' s'
  end.

(** [s.rfind(c)], with [None] for -1. *)
Fixpoint rfind (c : N) (s : str) : option nat :=
  match s with
  | [] => None
  | x :: s' =>
      match rfind c s' with
      | Some i => Some (S i)
      | None => if x =? c then Some O else None
      end
  end.

(** [s.split(sep)] for a one-character separator. *)
Fixpoint split (sep : N) (s : str) : list str :=
  match s with
  | [] => [[]]
  | x :: s' =>
      if x =? sep then [] :: split sep s'
      else match split sep s' with
           | seg :: segs => (x :: seg) :: segs
           | [] => [[x]]
           end
  end.

(** [sep.join(l)] *)
Fixpoint join (sep : str) (l : list str) : str :=
  match l with
  | [] => []
  | [x] => x
  | x :: l' => x ++ sep ++ join sep l'
  end.

(** [s.split(c, 1)] when [c] is in [s]: the text before and after the first
    [c]. *)
Definition split_first (c : N) (s : str) : option (str * str) :=
  i ← find_from c 0 s; Some (take i s, drop (S i) s).

Definition is_upper (c : N) : bool := (65 <=? c) && (c <=? 90).
Definition is_lower (c : N) : bool := (97 <=? c) && (c <=? 122).
Definition is_digit (c : N) : bool := (48 <=? c) && (c <=? 57).

(** [c.isascii() and c.isalpha()] *)
Definition is_ascii_alpha (c : N) : bool := is_upper c || is_lower c.

(** [s.lower()]; it is applied to scheme names only, which are ASCII. *)
Definition lower (s : str) : str := (λ c, if is_upper c then c + 32 else c) <$> s.

Definition uses_relative : list str :=
  [] :: (py <$> ["ftp"; "http"; "gopher"; "nntp"; "imap"; "wais"; "file"; "https";
                 "shttp"; "mms"; "prospero"; "rtsp"; "rtspu"; "sftp"; "svn";
                 "svn+ssh"; "ws"; "wss"])%string.

Definition uses_netloc : list str :=
  [] :: (py <$> ["ftp"; "http"; "gopher"; "nntp"; "telnet"; "imap"; "wais"; "file";
                 "mms"; "https"; "shttp"; "snews"; "prospero"; "rtsp"; "rtspu";
                 "rsync"; "svn"; "svn+ssh"; "sftp"; "nfs"; "git"; "git+ssh"; "ws";
                 "wss"])%string.

Definition uses_params : list str :=
  [] :: (py <$> ["ftp"; "hdl"; "prospero"; "http"; "imap"; "https"; "shttp"; "rtsp";
                 "rtspu"; "sip"; "sips"; "mms"; "sftp"; "tel"])%string.

(** [c in scheme_chars] *)
Definition scheme_char (c : N) : bool :=
  is_lower c || is_upper c || is_digit c || contains c (py "+-.").

(** [c in _WHATWG_C0_CONTROL_OR_SPACE] *)
Definition c0_control_or_space (c : N) : bool := c <=? 32.

(** [c in _UNSAFE_URL_BYTES_TO_REMOVE]: tab, carriage return, line feed. *)
Definition unsafe_url_byte (c : N) : bool := (c =? 9) || (c =? 13) || (c =? 10).

(** Removing every unsafe byte, as the [replace] loop of [urlsplit] does. *)
Definition remove_unsafe (s : str) : str :=
  List.filter (λ c, negb (unsafe_url_byte c)) s.

Record SplitResult : Type := mkSplit {
  s_scheme : str; s_netloc : str; s_path : str; s_query : str; s_fragment : str }.

Record ParseResult : Type := mkParse {
  scheme : str; netloc : str; path : str; params : str; query : str;
  fragment : str }.

(** [_splitnetloc(url, 2)] *)
Definition _splitnetloc (url : str) : str * str :=
  let delim := length url in
  let delim := foldl (λ delim c, match find_from c 2 url with
                                 | Some wdelim => Nat.min delim wdelim
                                 | None => delim
                                 end) delim (py "/?#") in
  (drop 2 (take delim url), drop delim url).

(** [_splitparams(url)] *)
Definition _splitparams (url : str) : str * str :=
  let i := if contains 47 url
           then find_from 59 (default O (rfind 47 url)) url
           else find_from 59 0 url in
  match i with
  | Some i => (take i url, drop (S i) url)
  | None => (url, [])
  end.

(** [urlunsplit((scheme, netloc, url, query, fragment))] *)
Definition urlunsplit (r : SplitResult) : str :=
  let url := s_path r in
  let url :=
    if truthy (Some (s_netloc r))
       || (truthy (Some (s_scheme r)) && bool_decide (s_scheme r ∈ uses_netloc)
           && negb (bool_decide (take 2 url = py "//")))
    then
      let url := if truthy (Some url) && negb (bool_decide (take 1 url = py "/"))
                 then py "/" ++ url else url in
      py "//" ++ s_netloc r ++ url
    else url in
  let url := if truthy (Some (s_scheme r)) then s_scheme r ++ py ":" ++ url else url in
  let url := if truthy (Some (s_query r)) then url ++ py "?" ++ s_query r else url in
  let url := if truthy (Some (s_fragment r)) then url ++ py "#" ++ s_fragment r else url in
  url.

(** [urlunparse((scheme, netloc, url, params, query, fragment))] *)
Definition urlunparse (r : ParseResult) : str :=
  let url := path r in
  let url := if truthy (Some (params r)) then url ++ py ";" ++ params r else url in
  urlunsplit (mkSplit (scheme r) (netloc r) url (query r) (fragment r)).

(** The loop of [urljoin] over the path segments: [..] pops a segment if
    there is one, [.] is skipped, any other segment is appended. *)
Definition resolve_segment (resolved_path : list str) (seg : str) : list str :=
  if bool_decide (seg = py "..") then removelast resolved_path
  else if bool_decide (seg = py ".") then resolved_path
  else resolved_path ++ [seg].

(** [segments[1:-1] = filter(None, segments[1:-1])] *)
Definition filter_inner (segments : list str) : list str :=
  match segments with
  | first :: (_ :: _) as rest =>
      first :: List.filter (λ seg, truthy (Some seg)) (removelast rest) ++ [List.last rest []]
  | _ => segments
  end.

(** The path [urljoin] gives a reference with the path [path] under a base
    whose path is empty: the segments of [path], after the one empty
    segment of the base when [path] is relative, go through the loop of
    [urljoin], and the result is joined again. *)
Definition resolved_path (path : str) : str :=
  let segments :=
    if bool_decide (take 1 path = py "/") then split 47 path
    else filter_inner ([[]] ++ split 47 path) in
  let resolved_path := foldl resolve_segment [] segments in
  let resolved_path :=
    if bool_decide (List.last segments [] ∈ [py "."; py ".."])
    then resolved_path ++ [[]] else resolved_path in
  let joined := join (py "/") resolved_path in
  if truthy (Some joined) then joined else py "/".

Section Urllib.

(** Two checks of [urlsplit] rest on other modules ([ipaddress],
    [unicodedata]) and are taken as given: [_check_bracketed_netloc] on a
    netloc with both brackets, and the NFKC test [_checknetloc] makes on a
    netloc that is not ASCII.  Each answers whether the netloc passes. *)
Context (_check_bracketed_netloc : str → bool) (nfkc_netloc_ok : str → bool).

(** [_checknetloc(netloc)] *)
Definition _checknetloc (netloc : str) : outcome unit :=
  if negb (truthy (Some netloc)) || forallb (λ c, c <? 128) netloc then Ok tt
  else if nfkc_netloc_ok netloc then Ok tt
  else Raise ValueError.

(** [urlsplit(url, scheme)] *)
Definition urlsplit (url scheme : str) : outcome SplitResult :=
  let url := lstrip_by c0_control_or_space url in
  let scheme := strip_by c0_control_or_space scheme in
  let url := remove_unsafe url in
  let scheme := remove_unsafe scheme in
  let '(scheme, url) :=
    match find_from 58 0 url with
    | Some i =>
        if bool_decide (0 < i)%nat && is_ascii_alpha (List.hd 0 url)
           && forallb scheme_char (take i url)
        then (lower (take i url), drop (S i) url)
        else (scheme, url)
    | None => (scheme, url)
    end in
  '(netloc, url) ←
    (if bool_decide (take 2 url = py "//") then
       let '(netloc, url) := _splitnetloc url in
       if (contains 91 netloc && negb (contains 93 netloc))
          || (contains 93 netloc && negb (contains 91 netloc))
       then Raise ValueError
       else if contains 91 netloc && contains 93 netloc
                 && negb (_check_bracketed_netloc netloc)
       then Raise ValueError
       else Ok (netloc, url)
     else Ok ([], url));
  let '(url, fragment) := default (url, []) (split_first 35 url) in
  let '(url, query) := default (url, []) (split_first 63 url) in
  _ ← _checknetloc netloc;
  Ok (mkSplit scheme netloc url query fragment).

(** [urlparse(url, scheme)] *)
Definition urlparse (url scheme : str) : outcome ParseResult :=
  splitresult ← urlsplit url scheme;
  let '(mkSplit scheme netloc url query fragment) := splitresult in
  let '(url, params) :=
    if bool_decide (scheme ∈ uses_params) && contains 59 url
    then _splitparams url else (url, []) in
  Ok (mkParse scheme netloc url params query fragment).

(** [urljoin(base, url)] *)
Definition urljoin (base url : str) : outcome str :=
  if negb (truthy (Some base)) then Ok url
  else if negb (truthy (Some url)) then Ok base
  else
    b ← urlparse base [];
    u ← urlparse url (scheme b);
    if negb (bool_decide (scheme u = scheme b))
       || negb (bool_decide (scheme u ∈ uses_relative))
    then Ok url
    else if bool_decide (scheme u ∈ uses_netloc) && truthy (Some (netloc u))
    then Ok (urlunparse u)
    else
      let netloc :=
        if bool_decide (scheme u ∈ uses_netloc) then netloc b else netloc u in
      if negb (truthy (Some (path u))) && negb (truthy (Some (params u)))
      then
        let query := if negb (truthy (Some (query u))) then query b else query u in
        Ok (urlunparse (mkParse (scheme u) netloc (path b) (params b) query (fragment u)))
      else
        let base_parts := split 47 (path b) in
        let base_parts :=
          if negb (bool_decide (List.last base_parts [] = []))
          then removelast base_parts else base_parts in
        let segments :=
          if bool_decide (take 1 (path u) = py "/") then split 47 (path u)
          else filter_inner (base_parts ++ split 47 (path u)) in
        let resolved_path := foldl resolve_segment [] segments in
        let resolved_path :=
          if bool_decide (List.last segments [] ∈ [py "."; py ".."])
          then resolved_path ++ [[]] else resolved_path in
        let joined := join (py "/") resolved_path in
        Ok (urlunparse (mkParse (scheme u) netloc
                          (if truthy (Some joined) then joined else py "/")
                          (params u) (query u) (fragment u))).

End Urllib.

(** ** urllib.parse: quote_plus *)

(** The UTF-8 bytes of one code point; a surrogate has none
    ([str.encode] is strict). *)
Definition encode_char (c : N) : option (list N) :=
  if c <? 128 then Some [c]
  else if c <? 2048 then Some [192 + c / 64; 128 + c mod 64]
  else if c <? 65536 then
    if (55296 <=? c) && (c <=? 57343) then None
    else Some [224 + c / 4096; 128 + (c / 64) mod 64; 128 + c mod 64]
  else if c <? 1114112 then
    Some [240 + c / 262144; 128 + (c / 4096) mod 64; 128 + (c / 64) mod 64;
          128 + c mod 64]
  else None.

(** [s.encode('utf-8', 'strict')] *)
Fixpoint encode (s : str) : outcome (list N) :=
  match s with
  | [] => Ok []
  | c :: s' =>
      match encode_char c with
      | Some bs => rest ← encode s'; Ok (bs ++ rest)
      | None => Raise UnicodeEncodeError
      end
  end.

(** [b in _ALWAYS_SAFE] *)
Definition always_safe (b : N) : bool :=
  is_upper b || is_lower b || is_digit b || contains b (py "_.-~").

Definition hex_digit (d : N) : N := if d <? 10 then 48 + d else 55 + d.

(** The quoter of one byte: itself when safe, else [%XX]. *)
Definition quoter (safe : str) (b : N) : str :=
  if always_safe b || contains b safe then [b]
  else [37; hex_digit (b / 16); hex_digit (b mod 16)].

(** [quote_from_bytes(bs, safe)] *)
Definition quote_from_bytes (bs : list N) (safe : str) : str :=
  if forallb (λ b, always_safe b || contains b safe) bs then bs
  else flat_map (quoter safe) bs.

(** [quote(string, safe)] *)
Definition quote (string safe : str) : outcome str :=
  if negb (truthy (Some string)) then Ok string
  else bs ← encode string; Ok (quote_from_bytes bs safe).

(** [quote_plus(string)] *)
Definition quote_plus (string : str) : outcome str :=
  if negb (contains 32 string) then quote string []
  else match quote string (py " ") with
       | Ok quoted => Ok ((λ c, if c =? 32 then 43 else c) <$> quoted)
       | Raise e => Raise e
       end.

(** What [quote_plus] makes of one byte of the encoded string: [+] for a
    space, the byte itself when it is always safe, [%XX] otherwise. *)
Definition quote_plus_byte (b : N) : str :=
  if b =? 32 then [43] else quoter [] b.

(** The name of the output file, from the quoted location. *)
Definition output_filename (quoted : str) : str :=
  py "restaurants_without_websites_" ++ quoted ++ py ".csv".

(** ** csv.writer *)

(** The excel dialect with minimal quoting: a field is put in quotes when it
    holds the delimiter, the quote character or a character of the line
    terminator; a quote character in it is doubled. *)
Definition quotechar : N := 34.

Definition csv_special (c : N) : bool :=
  (c =? 44) || (c =? quotechar) || (c =? 13) || (c =? 10).

Definition csv_field (field : str) : str :=
  let data := flat_map (λ c, if c =? quotechar then [quotechar; c] else [c]) field in
  if existsb csv_special field then [quotechar] ++ data ++ [quotechar] else data.

(** The text one [writer.writerow(fields)] writes. *)
Definition csv_row (fields : list str) : str :=
  match fields with
  | [[]] => [quotechar; quotechar; 13; 10]
  | _ => join (py ",") (csv_field <$> fields) ++ [13; 10]
  end.

(** The row of a listing in the words of the specification:
    comma-separated, with the standard CSV quoting.  A field that holds a
    comma, a double quote, a carriage return or a line feed is put between
    double quotes with each double quote in it doubled; any other field is
    written as it is; the line ends with carriage return and line feed. *)
Definition standard_csv_field (field : str) : str :=
  if contains 44 field || contains 34 field || contains 13 field || contains 10 field
  then [34] ++ flat_map (λ c, if c =? 34 then [34; 34] else [c]) field ++ [34]
  else field.

Definition standard_csv_row (r : listing) : str :=
  standard_csv_field r.1 ++ py "," ++ standard_csv_field r.2 ++ [13; 10].

(** ** The world: network, files, console *)

(** What [requests.get] followed by [raise_for_status] and the HTML parser
    gives for a URL: the parsed page, or a [RequestException] with its
    message (a bad status or a transport failure). *)
Inductive response : Type :=
| Page (soup : node)
| RequestException (msg : str).

(** The text files of the working directory by name, and the lines printed. *)
Record world : Type := mkWorld { files : gmap str str; console : list str }.

Definition print (line : str) (w : world) : world :=
  mkWorld (files w) (console w ++ [line]).

(** The most bytes a file name may have ([NAME_MAX] of the usual Linux
    file systems). *)
Definition NAME_MAX : nat := 255.

(** [os.fsencode] on one code point: UTF-8, where [surrogateescape] turns
    U+DC80 to U+DCFF back into the bytes 0x80 to 0xFF. *)
Definition fsencode_char (c : N) : option (list N) :=
  if (56448 <=? c) && (c <=? 56575) then Some [c - 56320] else encode_char c.

Fixpoint fsencode (s : str) : option (list N) :=
  match s with
  | [] => Some []
  | c :: s' =>
      match fsencode_char c, fsencode s' with
      | Some bs, Some rest => Some (bs ++ rest)
      | _, _ => None
      end
  end.

(** What [open(filename, 'w')] raises, if anything.  The world is one
    writable directory without subdirectories, so a name with a path
    separator finds no directory; the other refusals are a name that cannot
    be encoded or holds a null character, the empty name, the names of the
    directory itself and of its parent, and a name of more than [NAME_MAX]
    bytes. *)
Definition open_error (filename : str) : option exn :=
  match fsencode filename with
  | None => Some UnicodeEncodeError
  | Some bs =>
      if contains 0 filename then Some ValueError
      else if bool_decide (filename = []) || bool_decide (filename ∈ [py "."; py ".."])
              || contains 47 filename
      then Some OSError
      else if bool_decide (NAME_MAX < length bs)%nat then Some OSError
      else None
  end.

(** [open(filename, 'w', newline='', encoding='utf-8')]: the file is
    created or emptied, unless the name is refused. *)
Definition open_w (filename : str) (w : world) : outcome unit * world :=
  match open_error filename with
  | Some e => (Raise e, w)
  | None => (Ok tt, mkWorld (<[filename := []]> (files w)) (console w))
  end.

(** A write to the open file appends to its text; text that UTF-8 cannot
    encode raises and nothing of it is written. *)
Definition write (filename data : str) (w : world) : outcome unit * world :=
  match encode data with
  | Raise e => (Raise e, w)
  | Ok _ =>
      (Ok tt, mkWorld (alter (λ old, old ++ data) filename (files w)) (console w))
  end.

(** A [for] loop over [l] whose body acts on the world and may raise. *)
Fixpoint for_each_io {A : Type} (body : A → world → outcome unit * world)
    (l : list A) (w : world) : outcome unit * world :=
  match l with
  | [] => (Ok tt, w)
  | x :: l' =>
      match body x w with
      | (Ok _, w) => for_each_io body l' w
      | (Raise e, w) => (Raise e, w)
      end
  end.

(** [s.encode('utf-8')] returns. *)
Definition encodable (s : str) : Prop := ∃ bs, encode s = Ok bs.

(** The exit status of the process when an exception reaches the top. *)
Definition exit_status (e : exn) : Z :=
  match e with
  | SystemExit code => code
  | _ => 1%Z
  end.

Definition base_url : str := py "https://www.yellowpages.com".

(** The first URL, from the quoted location. *)
Definition search_url (quoted : str) : str :=
  base_url ++ py "/search?search_terms=restaurants&geo_location_terms=" ++ quoted.

Section Scraper.

Context (_check_bracketed_netloc : str → bool) (nfkc_netloc_ok : str → bool).
Context (requests_get : str → response).

(** ** fetch_page *)
Definition fetch_page (url : str) (w : world) : outcome node * world :=
  match requests_get url with
  | Page soup => (Ok soup, w)
  | RequestException e =>
      (Raise (SystemExit 1), print (py "Request failed: " ++ e) w)
  end.

(** ** get_next_page_url *)
Definition get_next_page_url (soup : node) (base_url : str) : outcome (option str) :=
  let next_button := find (py "a") (py "next") soup in
  match next_button with
  | Some button =>
      if truthy (get (py "href") button)
      then Some <$> urljoin _check_bracketed_netloc nfkc_netloc_ok base_url
                      (default [] (get (py "href") button))
      else Ok None
  | None => Ok None
  end.

(** ** scrape_yellow_pages *)

(** The [while] loop.  [None] is an exhausted budget; otherwise the loop
    ended, with the list it built or with an exception. *)
Fixpoint crawl (fuel : nat) (search_url : option str)
    (all_restaurants : list listing) (w : world)
  : option (outcome (list listing) * world) :=
  if truthy search_url then
    match fuel with
    | O => None
    | S fuel' =>
        match fetch_page (default [] search_url) w with
        | (Raise e, w) => Some (Raise e, w)
        | (Ok soup, w) =>
            match parse_restaurants soup with
            | Raise e => Some (Raise e, w)
            | Ok restaurants =>
                let all_restaurants := all_restaurants ++ restaurants in
                match get_next_page_url soup base_url with
                | Raise e => Some (Raise e, w)
                | Ok search_url => crawl fuel' search_url all_restaurants w
                end
            end
        end
    end
  else Some (Ok all_restaurants, w).

(** The chain of next links: [visits u pages u'] when the loop that holds
    [u] fetches [pages] one after the other and the paginator then leaves it
    with [u']. *)
Inductive visits : option str → list node → option str → Prop :=
| visits_nil u : visits u [] u
| visits_cons url soup next pages u' :
    truthy (Some url) = true →
    requests_get url = Page soup →
    get_next_page_url soup base_url = Ok next →
    visits next pages u' →
    visits (Some url) (soup :: pages) u'.

Definition scrape_yellow_pages (fuel : nat) (location : str) (w : world)
  : option (outcome (list listing) * world) :=
  match quote_plus location with
  | Raise e => Some (Raise e, w)
  | Ok quoted => crawl fuel (Some (search_url quoted)) [] w
  end.

(** ** save_to_csv *)
Definition save_to_csv (data : list listing) (filename : str) (w : world)
  : outcome unit * world :=
  match open_w filename w with
  | (Raise e, w) => (Raise e, w)
  | (Ok _, w) =>
      match write filename (csv_row [py "Restaurant Name"; py "Phone Number"]) w with
      | (Raise e, w) => (Raise e, w)
      | (Ok _, w) =>
          for_each_io (λ '(name, phone) w, write filename (csv_row [name; phone]) w)
            data w
      end
  end.

(** ** The script: [sys.argv] to exit status *)
Definition main (fuel : nat) (argv : list str) (w : world) : option (Z * world) :=
  match argv with
  | _ :: location :: _ =>
      match scrape_yellow_pages fuel location w with
      | None => None
      | Some (Raise e, w) => Some (exit_status e, w)
      | Some (Ok results, w) =>
          match quote_plus location with
          | Raise e => Some (exit_status e, w)
          | Ok quoted =>
              let output_filename :=
                py "restaurants_without_websites_" ++ quoted ++ py ".csv" in
              match save_to_csv results output_filename w with
              | (Raise e, w) => Some (exit_status e, w)
              | (Ok _, w) =>
                  Some (0%Z, print (py "Saved results to " ++ output_filename) w)
              end
          end
      end
  | _ => Some (1%Z, print (py "Usage: python script_name.py 'Location'") w)
  end.

End Scraper.

(** ** Mock pages and sites *)

(** Both netloc checks pass. *)
Definition accept (netloc : str) : bool := true.

Definition document (contents : list node) : node :=
  Tag (py "[document]") [] ∅ contents.

Definition next_anchor (href : str) : node :=
  Tag (py "a") [py "next"; py "ajax-page"] {[ py "href" := href ]}
      [NavigableString (py "Next")].

(** A listing without a website link. *)
Definition joes_diner : node :=
  Tag (py "div") [py "info"] ∅
    [Tag (py "a") [py "business-name"] {[ py "href" := py "/chicago-il/mip/joes-diner" ]}
       [Tag (py "span") [] ∅ [NavigableString (py " Joe's Diner")]];
     Tag (py "div") [py "phones"; py "phone"; py "primary"] ∅
       [NavigableString (py "(312) 555-0100 ")]].

(** A listing with a website link. *)
Definition acme_grill : node :=
  Tag (py "div") [py "info"] ∅
    [Tag (py "a") [py "business-name"] ∅ [NavigableString (py "Acme Grill")];
     Tag (py "div") [py "links"] ∅
       [Tag (py "a") [py "track-visit-website"] {[ py "href" := py "http://acme.example" ]}
          [NavigableString (py "Website")]];
     Tag (py "div") [py "phones"; py "phone"] ∅ [NavigableString (py "(312) 555-0199")]].

(** A listing block with a website link and no name element. *)
Definition nameless : node :=
  Tag (py "div") [py "info"] ∅
    [Tag (py "a") [py "track-visit-website"] {[ py "href" := py "http://x.example" ]}
       [NavigableString (py "Website")]].

(** A listing with neither website link nor phone element. *)
Definition corner_cafe : node :=
  Tag (py "div") [py "info"] ∅
    [Tag (py "a") [py "business-name"] ∅ [NavigableString (py "Corner Cafe")]].

Definition two_kept_page : node := document [corner_cafe; acme_grill; joes_diner].

Definition first_page : node :=
  document [joes_diner; next_anchor (py "/search?page=2")].

(** A page whose next anchor has an empty [href]. *)
Definition empty_href_page : node := document [joes_diner; next_anchor []].

Definition chicago_page : node := document [acme_grill; joes_diner].

Definition chicago_url : str := search_url (py "Chicago%2C+IL").

(** One page of results for Chicago and nothing else. *)
Definition chicago_site (url : str) : response :=
  if bool_decide (url = chicago_url) then Page chicago_page
  else RequestException (py "404 Client Error").

(** Every URL gives a page whose next link leads on. *)
Definition endless_site (url : str) : response := Page first_page.

(** The same, with a listing block that has no name element. *)
Definition endless_nameless_site (url : str) : response :=
  Page (document [nameless; next_anchor (py "/search?page=2")]).

(** The first page is served, the page it links to is not. *)
Definition failing_site (url : str) : response :=
  if bool_decide (url = chicago_url) then Page first_page
  else RequestException (py "500 Server Error").

(** A page whose next link is absolute and ends in an empty fragment. *)
Definition absolute_next_page : node :=
  document [next_anchor (py "https://www.yellowpages.com/search?page=2#")].

Definition empty_world : world := mkWorld ∅ [].

(** A listing whose name holds a lone surrogate, between two that are
    plain. *)
Definition surrogate_name : node :=
  Tag (py "div") [py "info"] ∅
    [Tag (py "a") [py "business-name"] ∅ [NavigableString (py "Bad" ++ [55296%N])]].

Definition surrogate_site (url : str) : response :=
  Page (document [joes_diner; surrogate_name; corner_cafe]).

(** The world a run on [surrogate_site] leaves. *)
Definition surrogate_world : world :=
  mkWorld {[ output_filename (py "Chicago%2C+IL") :=
               py "Restaurant Name,Phone Number" ++ [13; 10]%N
               ++ py "Joe's Diner,(312) 555-0100" ++ [13; 10]%N ]} [].

Abbreviation argv_chicago := [py "yellow-scraper.py"; py "Chicago, IL"].

Abbreviation second_url := (py "https://www.yellowpages.com/search?page=2").

(** * Properties *)

Local Close Scope N_scope.

(** ** The extractor *)

Lemma restaurant_name_Ok restaurant_info :
  is_Some (name_element restaurant_info) →
  ∃ name, restaurant_name restaurant_info = Ok name.
Proof.
  intros [e He]. unfold restaurant_name. rewrite He. by eexists.
Qed.

Lemma restaurant_name_Raise restaurant_info :
  name_element restaurant_info = None →
  restaurant_name restaurant_info = Raise AttributeError.
Proof. intros He. unfold restaurant_name. by rewrite He. Qed.

Lemma restaurant_name_Ok_inv restaurant_info name :
  restaurant_name restaurant_info = Ok name →
  ∃ e, name_element restaurant_info = Some e ∧ name = strip (text e).
Proof.
  unfold restaurant_name. destruct (name_element restaurant_info) as [e|]; [|done].
  intros [= <-]. by exists e.
Qed.

Lemma for_each_cons {A S : Type} (body : S → A → outcome S) x l s :
  for_each body (x :: l) s =
  match body s x with
  | Ok s' => for_each body l s'
  | Raise e => Raise e
  end.
Proof. reflexivity. Qed.

Lemma parse_restaurant_unfold restaurants restaurant_info :
  parse_restaurant restaurants restaurant_info =
  match restaurant_name restaurant_info with
  | Raise e => Raise e
  | Ok name =>
      match website_link restaurant_info with
      | None => Ok (restaurants ++ [(name, phone_number restaurant_info)])
      | Some _ => Ok restaurants
      end
  end.
Proof. reflexivity. Qed.

(** What the loop appends: one pair for each block without a website link,
    in the order of the blocks. *)
Lemma for_each_parse_restaurant blocks restaurants result :
  for_each parse_restaurant blocks restaurants = Ok result →
  ∃ new, result = restaurants ++ new ∧
    Forall2 (λ restaurant_info r,
               restaurant_name restaurant_info = Ok r.1 ∧
               r.2 = phone_number restaurant_info)
            (filter (λ b, website_link b = None) blocks) new.
Proof.
  revert restaurants. induction blocks as [|b blocks IH]; intros restaurants.
  - intros [= <-]. exists []. by rewrite app_nil_r.
  - rewrite for_each_cons, parse_restaurant_unfold.
    destruct (restaurant_name b) as [name|e] eqn:Hname; [|done].
    destruct (website_link b) as [link|] eqn:Hlink; intros Hrest.
    + rewrite filter_cons_False by congruence. by apply IH.
    + rewrite filter_cons_True by done.
      destruct (IH _ Hrest) as (new & -> & Hnew).
      exists ((name, phone_number b) :: new). split.
      * by rewrite <-app_assoc.
      * by constructor.
Qed.

Lemma for_each_parse_restaurant_total blocks restaurants :
  Forall (λ b, is_Some (name_element b)) blocks →
  ∃ result, for_each parse_restaurant blocks restaurants = Ok result.
Proof.
  intros Hall. revert restaurants.
  induction Hall as [|b blocks Hb _ IH]; intros restaurants; [by eexists|].
  rewrite for_each_cons, parse_restaurant_unfold.
  destruct (restaurant_name_Ok _ Hb) as [name ->].
  destruct (website_link b); apply IH.
Qed.

Lemma for_each_parse_restaurant_fault blocks restaurants b :
  b ∈ blocks → name_element b = None →
  for_each parse_restaurant blocks restaurants = Raise AttributeError.
Proof.
  intros Hin Hb. revert restaurants.
  induction blocks as [|x blocks IH]; intros restaurants; [by apply not_elem_of_nil in Hin|].
  rewrite for_each_cons, parse_restaurant_unfold.
  destruct (name_element x) as [e|] eqn:Hx.
  - destruct (restaurant_name_Ok x) as [name ->]; [by rewrite Hx|].
    assert (b ∈ blocks) as Hin'.
    { apply elem_of_cons in Hin as [->|?]; [congruence|done]. }
    destruct (website_link x); by apply IH.
  - by rewrite (restaurant_name_Raise _ Hx).
Qed.

(** C1: when [parse_restaurants] returns, the sequence it returns holds, in
    document order, exactly one listing for each listing block that has no
    website link; a block with a website link contributes nothing, whatever
    its name and phone are, and a block without one is included. *)
Theorem parse_restaurants_excludes_websites soup restaurants :
  parse_restaurants soup = Ok restaurants →
  Forall2 (λ restaurant_info r,
             restaurant_name restaurant_info = Ok r.1 ∧
             r.2 = phone_number restaurant_info)
          (filter (λ b, website_link b = None) (listing_blocks soup))
          restaurants.
Proof.
  unfold parse_restaurants. intros H.
  by destruct (for_each_parse_restaurant _ _ _ H) as (new & -> & Hnew).
Qed.

(** C2: the phone value of a returned listing is the sentinel
    [No phone number available] when its block has no [div] of class
    [phones], and the stripped text of that element when it has one. *)
Theorem parse_restaurants_phone soup restaurants :
  parse_restaurants soup = Ok restaurants →
  Forall2 (λ restaurant_info r,
             match find (py "div") (py "phones") restaurant_info with
             | None => r.2 = py "No phone number available"
             | Some e => r.2 = strip (text e)
             end)
          (filter (λ b, website_link b = None) (listing_blocks soup))
          restaurants.
Proof.
  unfold parse_restaurants. intros H.
  destruct (for_each_parse_restaurant _ _ _ H) as (new & -> & Hnew).
  simpl. eapply Forall2_impl; [exact Hnew|].
  intros b r [_ ->]. unfold phone_number, phone_element.
  by destruct (find _ _ b).
Qed.

(** C9: the name element is read before the website link is looked at, so
    one listing block without a name element makes [parse_restaurants]
    raise, with or without a website link in that block; it returns exactly
    when every listing block has a name element. *)
Theorem parse_restaurants_needs_every_name soup :
  (∀ b, b ∈ listing_blocks soup → name_element b = None →
        parse_restaurants soup = Raise AttributeError)
  ∧ ((∃ restaurants, parse_restaurants soup = Ok restaurants) ↔
     ∀ b, b ∈ listing_blocks soup → is_Some (name_element b)).
Proof.
  split; [|split].
  - intros b Hin Hb. by eapply for_each_parse_restaurant_fault.
  - intros [restaurants Hok] b Hin.
    destruct (name_element b) eqn:Hb; [by eexists|].
    unfold parse_restaurants in Hok.
    by rewrite (for_each_parse_restaurant_fault _ _ b Hin Hb) in Hok.
  - intros Hall. apply for_each_parse_restaurant_total.
    by apply Forall_forall.
Qed.

(** ** The paginator and the crawl loop *)

(** The defining equations of the paginator and of one turn of the loop. *)
Lemma get_next_page_url_unfold check1 check2 soup base :
  get_next_page_url check1 check2 soup base =
  match find (py "a") (py "next") soup with
  | Some button =>
      if truthy (get (py "href") button)
      then Some <$> urljoin check1 check2 base (default [] (get (py "href") button))
      else Ok None
  | None => Ok None
  end.
Proof. reflexivity. Qed.

Lemma crawl_unfold check1 check2 requests_get fuel u all_restaurants w :
  crawl check1 check2 requests_get (S fuel) u all_restaurants w =
  if truthy u then
    match fetch_page requests_get (default [] u) w with
    | (Raise e, w) => Some (Raise e, w)
    | (Ok soup, w) =>
        match parse_restaurants soup with
        | Raise e => Some (Raise e, w)
        | Ok restaurants =>
            match get_next_page_url check1 check2 soup base_url with
            | Raise e => Some (Raise e, w)
            | Ok next =>
                crawl check1 check2 requests_get fuel next
                  (all_restaurants ++ restaurants) w
            end
        end
    end
  else Some (Ok all_restaurants, w).
Proof. reflexivity. Qed.

Lemma scrape_yellow_pages_unfold check1 check2 requests_get fuel location w :
  scrape_yellow_pages check1 check2 requests_get fuel location w =
  match quote_plus location with
  | Raise e => Some (Raise e, w)
  | Ok quoted => crawl check1 check2 requests_get fuel (Some (search_url quoted)) [] w
  end.
Proof. reflexivity. Qed.

Section ScraperProperties.

Context (_check_bracketed_netloc : str → bool) (nfkc_netloc_ok : str → bool).
Context (requests_get : str → response).

Local Abbreviation get_next_page_url :=
  (get_next_page_url _check_bracketed_netloc nfkc_netloc_ok).
Local Abbreviation crawl :=
  (crawl _check_bracketed_netloc nfkc_netloc_ok requests_get).
Local Abbreviation visits :=
  (visits _check_bracketed_netloc nfkc_netloc_ok requests_get).
Local Abbreviation scrape_yellow_pages :=
  (scrape_yellow_pages _check_bracketed_netloc nfkc_netloc_ok requests_get).
Local Abbreviation main :=
  (main _check_bracketed_netloc nfkc_netloc_ok requests_get).

Lemma get_next_page_url_no_button soup base :
  find (py "a") (py "next") soup = None →
  get_next_page_url soup base = Ok None.
Proof. intros H. by rewrite get_next_page_url_unfold, H. Qed.

Lemma get_next_page_url_falsy_href soup base next_button :
  find (py "a") (py "next") soup = Some next_button →
  truthy (get (py "href") next_button) = false →
  get_next_page_url soup base = Ok None.
Proof. intros H Hhref. by rewrite get_next_page_url_unfold, H, Hhref. Qed.

(** The loop is over once its URL is [None] or empty. *)
Lemma crawl_done fuel u all_restaurants w :
  truthy u = false → crawl fuel u all_restaurants w = Some (Ok all_restaurants, w).
Proof. intros H. destruct fuel; simpl; by rewrite H. Qed.

(** One iteration on a page that is fetched, parsed and paginated. *)
Lemma crawl_step fuel url all_restaurants w soup restaurants next :
  truthy (Some url) = true →
  requests_get url = Page soup →
  parse_restaurants soup = Ok restaurants →
  get_next_page_url soup base_url = Ok next →
  crawl (S fuel) (Some url) all_restaurants w =
  crawl fuel next (all_restaurants ++ restaurants) w.
Proof.
  intros Hurl Hget Hparse Hnext. rewrite crawl_unfold, Hurl.
  unfold fetch_page. simpl default. by rewrite Hget, Hparse, Hnext.
Qed.

(** One iteration on a page whose extraction raises. *)
Lemma crawl_step_parse_raises fuel url all_restaurants w soup e :
  truthy (Some url) = true →
  requests_get url = Page soup →
  parse_restaurants soup = Raise e →
  crawl (S fuel) (Some url) all_restaurants w = Some (Raise e, w).
Proof.
  intros Hurl Hget Hparse. rewrite crawl_unfold, Hurl.
  unfold fetch_page. simpl default. by rewrite Hget, Hparse.
Qed.

(** One iteration on a URL whose fetch fails. *)
Lemma crawl_step_fetch_fails fuel url all_restaurants w msg :
  truthy (Some url) = true →
  requests_get url = RequestException msg →
  crawl (S fuel) (Some url) all_restaurants w =
  Some (Raise (SystemExit 1), print (py "Request failed: " ++ msg) w).
Proof.
  intros Hurl Hget. rewrite crawl_unfold, Hurl.
  unfold fetch_page. simpl default. by rewrite Hget.
Qed.

(** The last page: no further URL, so the loop returns what it has. *)
Lemma crawl_last_page fuel url all_restaurants w soup restaurants :
  truthy (Some url) = true →
  requests_get url = Page soup →
  parse_restaurants soup = Ok restaurants →
  get_next_page_url soup base_url = Ok None →
  crawl (S fuel) (Some url) all_restaurants w =
  Some (Ok (all_restaurants ++ restaurants), w).
Proof.
  intros Hurl Hget Hparse Hnext.
  rewrite (crawl_step _ _ _ _ _ _ _ Hurl Hget Hparse Hnext).
  by apply crawl_done.
Qed.

(** C5: on a page with no [next] anchor, or whose [next] anchor has no
    [href], [get_next_page_url] returns [None], and the loop that fetched
    this page ends with this iteration: it returns the listings it had
    followed by those extracted from the page. *)
Theorem no_next_link_ends_crawl soup base :
  (find (py "a") (py "next") soup = None ∨
   ∃ next_button, find (py "a") (py "next") soup = Some next_button ∧
                  get (py "href") next_button = None) →
  get_next_page_url soup base = Ok None ∧
  ∀ fuel url all_restaurants restaurants w,
    truthy (Some url) = true →
    requests_get url = Page soup →
    parse_restaurants soup = Ok restaurants →
    crawl (S fuel) (Some url) all_restaurants w =
    Some (Ok (all_restaurants ++ restaurants), w).
Proof.
  intros Hnone.
  assert (∀ b, get_next_page_url soup b = Ok None) as Hnext.
  { intros b. destruct Hnone as [H|(next_button & H & Hhref)].
    - by apply get_next_page_url_no_button.
    - eapply get_next_page_url_falsy_href; [done|]. by rewrite Hhref. }
  split; [done|]. intros. by eapply crawl_last_page.
Qed.

(** C10: an [href] that is present but empty counts as no [href]:
    [get_next_page_url] returns [None], as it does when the attribute is
    absent, and the loop ends with this page. *)
Theorem empty_href_ends_crawl soup base next_button :
  find (py "a") (py "next") soup = Some next_button →
  get (py "href") next_button = Some [] ∨ get (py "href") next_button = None →
  get_next_page_url soup base = Ok None ∧
  ∀ fuel url all_restaurants restaurants w,
    truthy (Some url) = true →
    requests_get url = Page soup →
    parse_restaurants soup = Ok restaurants →
    crawl (S fuel) (Some url) all_restaurants w =
    Some (Ok (all_restaurants ++ restaurants), w).
Proof.
  intros H Hhref.
  assert (∀ b, get_next_page_url soup b = Ok None) as Hnext.
  { intros b. eapply get_next_page_url_falsy_href; [done|].
    by destruct Hhref as [-> | ->]. }
  split; [done|]. intros. by eapply crawl_last_page.
Qed.

(** Along a chain that ends, with every page extracted, the loop returns the
    per-page results appended in the order of the visits. *)
Lemma crawl_finite_chain u pages u' :
  visits u pages u' →
  ∀ results fuel all_restaurants w,
    truthy u' = false →
    Forall2 (λ soup restaurants, parse_restaurants soup = Ok restaurants)
            pages results →
    length pages ≤ fuel →
    crawl fuel u all_restaurants w = Some (Ok (all_restaurants ++ concat results), w).
Proof.
  induction 1 as [u|url soup next pages u' Hurl Hget Hnext _ IH];
    intros results fuel all_restaurants w Hend Hparse Hfuel.
  - apply Forall2_nil_inv_l in Hparse as ->. simpl. rewrite app_nil_r.
    by apply crawl_done.
  - apply Forall2_cons_inv_l in Hparse as (restaurants & results' & Hok & Hrest & ->).
    destruct fuel as [|fuel]; simpl in Hfuel; [lia|].
    rewrite (crawl_step _ _ _ _ _ _ _ Hurl Hget Hok Hnext).
    rewrite (IH results' fuel _ w Hend Hrest) by lia.
    simpl. by rewrite app_assoc.
Qed.

(** As long as the chain goes on and every page is extracted, the budget
    runs out before the loop ends. *)
Lemma crawl_unfinished u pages u' :
  visits u pages u' →
  ∀ all_restaurants w,
    truthy u' = true →
    Forall (λ soup, ∃ restaurants, parse_restaurants soup = Ok restaurants) pages →
    crawl (length pages) u all_restaurants w = None.
Proof.
  induction 1 as [u|url soup next pages u' Hurl Hget Hnext _ IH];
    intros all_restaurants w Hmore Hparse.
  - simpl. by rewrite Hmore.
  - apply Forall_cons in Hparse as [[restaurants Hok] Hrest].
    simpl length. rewrite (crawl_step _ _ _ _ _ _ _ Hurl Hget Hok Hnext).
    by apply IH.
Qed.

(** A page whose extraction raises ends the loop with that exception. *)
Lemma crawl_parse_raises u pages u' :
  visits u pages u' →
  ∀ results url soup e fuel all_restaurants w,
    u' = Some url → truthy u' = true →
    Forall2 (λ soup restaurants, parse_restaurants soup = Ok restaurants)
            pages results →
    requests_get url = Page soup →
    parse_restaurants soup = Raise e →
    length pages < fuel →
    crawl fuel u all_restaurants w = Some (Raise e, w).
Proof.
  induction 1 as [u|url0 soup0 next pages u' Hurl Hget Hnext _ IH];
    intros results url soup e fuel all_restaurants w -> Hmore Hparse Hpage He Hfuel.
  - destruct fuel as [|fuel]; simpl in Hfuel; [lia|].
    by eapply crawl_step_parse_raises.
  - apply Forall2_cons_inv_l in Hparse as (restaurants & results' & Hok & Hrest & ->).
    destruct fuel as [|fuel]; simpl in Hfuel; [lia|].
    rewrite (crawl_step _ _ _ _ _ _ _ Hurl Hget Hok Hnext).
    eapply IH; eauto with lia.
Qed.

(** A URL whose fetch fails ends the loop with exit status 1. *)
Lemma crawl_fetch_fails u pages u' :
  visits u pages u' →
  ∀ results url msg fuel all_restaurants w,
    u' = Some url → truthy u' = true →
    Forall2 (λ soup restaurants, parse_restaurants soup = Ok restaurants)
            pages results →
    requests_get url = RequestException msg →
    length pages < fuel →
    crawl fuel u all_restaurants w =
    Some (Raise (SystemExit 1), print (py "Request failed: " ++ msg) w).
Proof.
  induction 1 as [u|url0 soup0 next pages u' Hurl Hget Hnext _ IH];
    intros results url msg fuel all_restaurants w -> Hmore Hparse Hfail Hfuel.
  - destruct fuel as [|fuel]; simpl in Hfuel; [lia|].
    by eapply crawl_step_fetch_fails.
  - apply Forall2_cons_inv_l in Hparse as (restaurants & results' & Hok & Hrest & ->).
    destruct fuel as [|fuel]; simpl in Hfuel; [lia|].
    rewrite (crawl_step _ _ _ _ _ _ _ Hurl Hget Hok Hnext).
    eapply IH; eauto with lia.
Qed.

(** C3 (amended): let the location be quotable, so that there is a first
    URL.  If the chain of next links from it ends and [parse_restaurants]
    returns on each of its pages, the crawl ends, for every budget that
    covers the pages, with the per-page results appended in the order of
    the visits.  If the chain never ends and [parse_restaurants] returns on
    every page of it, no budget lets the crawl end.  A page on which
    [parse_restaurants] raises ends the crawl there with that exception. *)
Theorem scrape_yellow_pages_follows_chain location quoted w :
  quote_plus location = Ok quoted →
  (∀ pages u' results fuel,
     visits (Some (search_url quoted)) pages u' →
     truthy u' = false →
     Forall2 (λ soup restaurants, parse_restaurants soup = Ok restaurants)
             pages results →
     length pages ≤ fuel →
     scrape_yellow_pages fuel location w = Some (Ok (concat results), w))
  ∧ ((∀ n, ∃ pages u',
        length pages = n ∧
        visits (Some (search_url quoted)) pages u' ∧
        truthy u' = true ∧
        Forall (λ soup, ∃ restaurants, parse_restaurants soup = Ok restaurants)
               pages) →
     ∀ fuel, scrape_yellow_pages fuel location w = None)
  ∧ (∀ pages url soup e results fuel,
       visits (Some (search_url quoted)) pages (Some url) →
       truthy (Some url) = true →
       Forall2 (λ soup restaurants, parse_restaurants soup = Ok restaurants)
               pages results →
       requests_get url = Page soup →
       parse_restaurants soup = Raise e →
       length pages < fuel →
       scrape_yellow_pages fuel location w = Some (Raise e, w)).
Proof.
  intros Hquote. split; [|split].
  - intros pages u' results fuel Hchain Hend Hparse Hfuel.
    rewrite scrape_yellow_pages_unfold, Hquote.
    by rewrite (crawl_finite_chain _ _ _ Hchain results fuel [] w Hend Hparse Hfuel).
  - intros Hchain fuel. rewrite scrape_yellow_pages_unfold, Hquote.
    destruct (Hchain fuel) as (pages & u' & <- & Hvisits & Hmore & Hparse).
    by apply (crawl_unfinished _ _ _ Hvisits).
  - intros pages url soup e results fuel Hchain Hmore Hparse Hget He Hfuel.
    rewrite scrape_yellow_pages_unfold, Hquote.
    by eapply crawl_parse_raises.
Qed.

(** ** The writer and the whole script *)

Lemma main_unfold script location rest fuel w :
  main fuel (script :: location :: rest) w =
  match scrape_yellow_pages fuel location w with
  | None => None
  | Some (Raise e, w) => Some (exit_status e, w)
  | Some (Ok results, w) =>
      match quote_plus location with
      | Raise e => Some (exit_status e, w)
      | Ok quoted =>
          match save_to_csv results (output_filename quoted) w with
          | (Raise e, w) => Some (exit_status e, w)
          | (Ok _, w) =>
              Some (0%Z, print (py "Saved results to " ++ output_filename quoted) w)
          end
      end
  end.
Proof. reflexivity. Qed.

(** C6: when a fetch fails, on the first URL or after any number of pages
    that were fetched and extracted, the script exits with status 1; the
    files are what they were before the run, so no CSV file is written and
    the listings gathered so far are lost; the console has the failure
    message as its one new line. *)
Theorem fetch_failure_exits_without_csv
    script location rest quoted w pages results url msg fuel :
  quote_plus location = Ok quoted →
  visits (Some (search_url quoted)) pages (Some url) →
  truthy (Some url) = true →
  Forall2 (λ soup restaurants, parse_restaurants soup = Ok restaurants)
          pages results →
  requests_get url = RequestException msg →
  length pages < fuel →
  ∃ w', main fuel (script :: location :: rest) w = Some (1%Z, w') ∧
        files w' = files w ∧
        console w' = console w ++ [py "Request failed: " ++ msg].
Proof.
  intros Hquote Hchain Hmore Hparse Hfail Hfuel.
  exists (print (py "Request failed: " ++ msg) w). split; [|done].
  rewrite main_unfold, scrape_yellow_pages_unfold, Hquote.
  by rewrite (crawl_fetch_fails _ _ _ Hchain results url msg fuel [] w
                eq_refl Hmore Hparse Hfail Hfuel).
Qed.

End ScraperProperties.

(** ** Resolving the next link *)

Lemma urlparse_base check1 check2 :
  urlparse check1 check2 base_url [] =
  Ok (mkParse (py "https") (py "www.yellowpages.com") [] [] [] []).
Proof. reflexivity. Qed.

(** With a scheme and a netloc, [urlunparse] puts them first. *)
Lemma urlunparse_with_netloc sch nl p prm q f :
  truthy (Some sch) = true →
  truthy (Some nl) = true →
  ∃ rest, urlunparse (mkParse sch nl p prm q f) = sch ++ py ":" ++ py "//" ++ nl ++ rest.
Proof.
  intros Hscheme Hnetloc.
  destruct sch as [|c sch]; [done|]. destruct nl as [|d nl]; [done|].
  unfold urlunparse, urlunsplit.
  cbn [s_scheme s_netloc s_path s_query s_fragment
       scheme netloc path params query fragment truthy orb].
  repeat match goal with |- context [if ?b then _ else _] => destruct b end;
    eexists; rewrite <-?app_assoc; simpl; reflexivity.
Qed.

Lemma get_next_page_url_href check1 check2 soup base next_button href :
  find (py "a") (py "next") soup = Some next_button →
  get (py "href") next_button = Some href →
  truthy (Some href) = true →
  get_next_page_url check1 check2 soup base =
  Some <$> urljoin check1 check2 base href.
Proof.
  intros Hfind Hget Hhref. by rewrite get_next_page_url_unfold, Hfind, Hget, Hhref.
Qed.

(** The three ways [urljoin] treats a non-empty [url] that parses, under
    the base of the script. *)
Lemma urljoin_base check1 check2 url u :
  truthy (Some url) = true →
  urlparse check1 check2 url (py "https") = Ok u →
  (scheme u ≠ py "https" → urljoin check1 check2 base_url url = Ok url)
  ∧ (scheme u = py "https" → netloc u ≠ [] →
     urljoin check1 check2 base_url url = Ok (urlunparse u))
  ∧ (scheme u = py "https" → netloc u = [] →
     ∃ rest, urljoin check1 check2 base_url url = Ok (base_url ++ rest)).
Proof.
  intros Hurl Hu.
  assert (bool_decide (py "https" ∈ uses_relative) = true) as Hrel by reflexivity.
  assert (bool_decide (py "https" ∈ uses_netloc) = true) as Hnet by reflexivity.
  unfold urljoin. rewrite Hurl, urlparse_base.
  change (truthy (Some base_url)) with true.
  cbn [negb mbind outcome_bind scheme netloc path params query fragment].
  rewrite Hu. cbn [mbind outcome_bind].
  split; [|split].
  - intros Hscheme. by rewrite (bool_decide_eq_false_2 _ Hscheme).
  - intros -> Hnetloc. rewrite bool_decide_eq_true_2, Hrel, Hnet by done.
    destruct (netloc u); [done|]. reflexivity.
  - intros -> ->. rewrite bool_decide_eq_true_2, Hrel, Hnet by done.
    cbn [negb orb andb truthy].
    match goal with
    | |- context [if ?b then _ else _] => destruct b
    end;
      match goal with
      | |- context [urlunparse (mkParse _ _ ?p ?prm ?q ?f)] =>
          destruct (urlunparse_with_netloc (py "https") (py "www.yellowpages.com")
                      p prm q f eq_refl eq_refl) as [rest ->]
      end; by exists rest.
Qed.

(** ** The properties on the mock pages *)

Lemma parse_restaurants_excludes_websites_chicago :
  Forall2 (λ restaurant_info r,
             restaurant_name restaurant_info = Ok r.1 ∧
             r.2 = phone_number restaurant_info)
          (filter (λ b, website_link b = None) (listing_blocks chicago_page))
          [(py "Joe's Diner", py "(312) 555-0100")].
Proof.
  apply (parse_restaurants_excludes_websites chicago_page). reflexivity.
Defined.

Lemma parse_restaurants_phone_two_kept :
  Forall2 (λ restaurant_info r,
             match find (py "div") (py "phones") restaurant_info with
             | None => r.2 = py "No phone number available"
             | Some e => r.2 = strip (text e)
             end)
          (filter (λ b, website_link b = None) (listing_blocks two_kept_page))
          [(py "Corner Cafe", py "No phone number available");
           (py "Joe's Diner", py "(312) 555-0100")].
Proof.
  apply (parse_restaurants_phone two_kept_page). reflexivity.
Defined.

(** A block with a website link and no name element makes the extractor
    raise. *)
Lemma parse_restaurants_nameless :
  is_Some (website_link nameless) ∧
  parse_restaurants (document [joes_diner; nameless]) = Raise AttributeError.
Proof.
  split; [by eexists|].
  apply (proj1 (parse_restaurants_needs_every_name (document [joes_diner; nameless]))
           nameless); [|reflexivity].
  change (nameless ∈ [joes_diner; nameless]). apply list_elem_of_further, list_elem_of_here.
Defined.

Lemma visits_chicago :
  visits accept accept chicago_site (Some chicago_url) [chicago_page] None.
Proof.
  eapply visits_cons; [reflexivity | reflexivity | reflexivity | apply visits_nil].
Qed.

Lemma visits_failing :
  visits accept accept failing_site (Some chicago_url) [first_page] (Some second_url).
Proof.
  eapply visits_cons; [reflexivity | reflexivity | reflexivity | apply visits_nil].
Qed.

(** On a site that serves a page with a next link for every URL, the chain
    of next links never ends. *)
Lemma visits_endlessly (site : str → response) (soup : node) :
  (∀ url, site url = Page soup) →
  get_next_page_url accept accept soup base_url = Ok (Some second_url) →
  ∀ n url, truthy (Some url) = true →
    ∃ pages u', length pages = n ∧
                visits accept accept site (Some url) pages u' ∧
                truthy u' = true ∧ Forall (λ page, page = soup) pages.
Proof.
  intros Hsite Hnext. induction n as [|n IH]; intros url Hurl.
  - exists [], (Some url). repeat split; [constructor|done|constructor].
  - destruct (IH second_url eq_refl) as (pages & u' & Hlen & Hvisits & Hmore & Hall).
    exists (soup :: pages), u'. repeat split; [by rewrite <-Hlen| |done|by constructor].
    by eapply visits_cons.
Qed.

Lemma scrape_yellow_pages_follows_chain_mock :
  scrape_yellow_pages accept accept chicago_site 1 (py "Chicago, IL") empty_world =
    Some (Ok [(py "Joe's Diner", py "(312) 555-0100")], empty_world)
  ∧ (∀ fuel, scrape_yellow_pages accept accept endless_site fuel (py "Chicago, IL")
               empty_world = None).
Proof.
  split.
  - apply (proj1 (scrape_yellow_pages_follows_chain accept accept chicago_site
                    (py "Chicago, IL") (py "Chicago%2C+IL") empty_world eq_refl)
             [chicago_page] None [[(py "Joe's Diner", py "(312) 555-0100")]] 1%nat).
    + exact visits_chicago.
    + reflexivity.
    + repeat constructor.
    + simpl. lia.
  - apply (proj1 (proj2 (scrape_yellow_pages_follows_chain accept accept endless_site
                    (py "Chicago, IL") (py "Chicago%2C+IL") empty_world eq_refl))).
    intros n.
    destruct (visits_endlessly endless_site first_page (λ _, eq_refl) eq_refl n
                (search_url (py "Chicago%2C+IL")) eq_refl)
      as (pages & u' & Hlen & Hvisits & Hmore & Hall).
    exists pages, u'. repeat split; try done.
    eapply Forall_impl; [exact Hall|]. intros page ->. by eexists.
Defined.

(** The chain of next links never ends, and yet the crawl ends, on its
    first page, with the exception of the extractor. *)
Lemma endless_chain_crawl_ends :
  (∀ n, ∃ pages u',
     length pages = n ∧
     visits accept accept endless_nameless_site (Some (search_url (py "Chicago%2C+IL")))
            pages u' ∧
     truthy u' = true)
  ∧ quote_plus (py "Chicago, IL") = Ok (py "Chicago%2C+IL")
  ∧ scrape_yellow_pages accept accept endless_nameless_site 1 (py "Chicago, IL")
      empty_world = Some (Raise AttributeError, empty_world).
Proof.
  split; [|split; reflexivity].
  intros n.
  destruct (visits_endlessly endless_nameless_site
              (document [nameless; next_anchor (py "/search?page=2")])
              (λ _, eq_refl) eq_refl n (search_url (py "Chicago%2C+IL")) eq_refl)
    as (pages & u' & Hlen & Hvisits & Hmore & _).
  by exists pages, u'.
Qed.

(** An absolute [href], with the scheme and the host of the base, that is
    not returned as it is: its empty fragment is dropped. *)
Lemma absolute_href_not_as_is :
  (get (py "href") <$> find (py "a") (py "next") absolute_next_page) =
    Some (Some (py "https://www.yellowpages.com/search?page=2#"))
  ∧ (scheme <$> urlparse accept accept (py "https://www.yellowpages.com/search?page=2#") [])
    = Ok (py "https")
  ∧ get_next_page_url accept accept absolute_next_page base_url =
    Ok (Some (py "https://www.yellowpages.com/search?page=2"))
  ∧ py "https://www.yellowpages.com/search?page=2" ≠
    py "https://www.yellowpages.com/search?page=2#".
Proof. repeat split; try reflexivity. by vm_compute. Qed.

Lemma no_next_link_ends_crawl_chicago :
  get_next_page_url accept accept chicago_page base_url = Ok None ∧
  ∀ fuel url all_restaurants restaurants w,
    truthy (Some url) = true →
    chicago_site url = Page chicago_page →
    parse_restaurants chicago_page = Ok restaurants →
    crawl accept accept chicago_site (S fuel) (Some url) all_restaurants w =
    Some (Ok (all_restaurants ++ restaurants), w).
Proof.
  apply (no_next_link_ends_crawl accept accept chicago_site chicago_page base_url).
  left. reflexivity.
Defined.

Lemma empty_href_ends_crawl_mock :
  get_next_page_url accept accept empty_href_page base_url = Ok None ∧
  ∀ fuel url all_restaurants restaurants w,
    truthy (Some url) = true →
    (λ _, Page empty_href_page) url = Page empty_href_page →
    parse_restaurants empty_href_page = Ok restaurants →
    crawl accept accept (λ _, Page empty_href_page) (S fuel) (Some url)
      all_restaurants w =
    Some (Ok (all_restaurants ++ restaurants), w).
Proof.
  apply (empty_href_ends_crawl accept accept (λ _, Page empty_href_page)
           empty_href_page base_url (next_anchor [])); [reflexivity|].
  left. reflexivity.
Defined.

Lemma fetch_failure_on_second_page :
  ∃ w', main accept accept failing_site 2 argv_chicago empty_world = Some (1%Z, w') ∧
        files w' = files empty_world ∧
        console w' = console empty_world ++ [py "Request failed: " ++ py "500 Server Error"].
Proof.
  apply (fetch_failure_exits_without_csv accept accept failing_site
           (py "yellow-scraper.py") (py "Chicago, IL") [] (py "Chicago%2C+IL")
           empty_world [first_page] [[(py "Joe's Diner", py "(312) 555-0100")]]
           second_url (py "500 Server Error") 2).
  - reflexivity.
  - exact visits_failing.
  - reflexivity.
  - repeat constructor.
  - reflexivity.
  - simpl. lia.
Defined.


(** * Further properties of the script *)

(** ** What a run does to the world *)

Section RunProperties.

Context (_check_bracketed_netloc : str → bool) (nfkc_netloc_ok : str → bool).
Context (requests_get : str → response).

Local Abbreviation get_next_page_url :=
  (get_next_page_url _check_bracketed_netloc nfkc_netloc_ok).
Local Abbreviation crawl :=
  (crawl _check_bracketed_netloc nfkc_netloc_ok requests_get).
Local Abbreviation visits :=
  (visits _check_bracketed_netloc nfkc_netloc_ok requests_get).
Local Abbreviation scrape_yellow_pages :=
  (scrape_yellow_pages _check_bracketed_netloc nfkc_netloc_ok requests_get).
Local Abbreviation main :=
  (main _check_bracketed_netloc nfkc_netloc_ok requests_get).

(** The loop leaves the files alone; it leaves the whole world alone unless
    a fetch fails, and then the console gets one line. *)
Lemma crawl_world fuel :
  ∀ u all_restaurants w r w',
    crawl fuel u all_restaurants w = Some (r, w') →
    files w' = files w ∧
    (w' = w ∨ ∃ msg, r = Raise (SystemExit 1) ∧
                     w' = print (py "Request failed: " ++ msg) w).
Proof.
  induction fuel as [|fuel IH]; intros u all_restaurants w r w'.
  - simpl. destruct (truthy u); [done|]. intros [= <- <-]. auto.
  - rewrite crawl_unfold. destruct (truthy u); [|intros [= <- <-]; auto].
    unfold fetch_page. destruct (requests_get (default [] u)) as [soup|msg].
    + destruct (parse_restaurants soup) as [restaurants|e]; [|intros [= <- <-]; auto].
      destruct (get_next_page_url soup base_url) as [next|e]; [|intros [= <- <-]; auto].
      apply IH.
    + intros [= <- <-]. split; [done|]. right. by exists msg.
Qed.

(** Which exceptions the parts raise. *)
Lemma for_each_parse_restaurant_raises blocks restaurants e :
  for_each parse_restaurant blocks restaurants = Raise e → e = AttributeError.
Proof.
  revert restaurants. induction blocks as [|b blocks IH]; intros restaurants; [done|].
  rewrite for_each_cons, parse_restaurant_unfold. unfold restaurant_name.
  destruct (name_element b); cbn; [|congruence].
  destruct (website_link b); apply IH.
Qed.

Lemma parse_restaurants_raises soup e :
  parse_restaurants soup = Raise e → e = AttributeError.
Proof. apply for_each_parse_restaurant_raises. Qed.

Lemma urlsplit_raises url scheme e :
  urlsplit _check_bracketed_netloc nfkc_netloc_ok url scheme = Raise e →
  e = ValueError.
Proof.
  unfold urlsplit, _checknetloc. intros H.
  repeat (case_match; simplify_eq; cbn in *); done.
Qed.

Lemma urlparse_raises url scheme e :
  urlparse _check_bracketed_netloc nfkc_netloc_ok url scheme = Raise e →
  e = ValueError.
Proof.
  unfold urlparse.
  destruct (urlsplit _ _ url scheme) as [[]|e'] eqn:Hsplit; cbn.
  - by repeat case_match.
  - intros [= <-]. by eapply urlsplit_raises.
Qed.

Lemma urljoin_raises base url e :
  urljoin _check_bracketed_netloc nfkc_netloc_ok base url = Raise e →
  e = ValueError.
Proof.
  unfold urljoin. repeat (case_match; try done).
  destruct (urlparse _ _ base []) as [b|e'] eqn:Hb; cbn.
  - destruct (urlparse _ _ url (scheme b)) as [u|e''] eqn:Hu; cbn.
    + by repeat case_match.
    + intros [= <-]. by eapply urlparse_raises.
  - intros [= <-]. by eapply urlparse_raises.
Qed.

Lemma get_next_page_url_raises soup base e :
  get_next_page_url soup base = Raise e → e = ValueError.
Proof.
  rewrite get_next_page_url_unfold. repeat (case_match; try done).
  destruct (urljoin _ _ base _) eqn:Hjoin; cbn; [done|].
  intros [= <-]. by eapply urljoin_raises.
Qed.

Lemma encode_raises s e : encode s = Raise e → e = UnicodeEncodeError.
Proof.
  induction s as [|c s IH]; simpl; [done|].
  destruct (encode_char c); [|congruence].
  destruct (encode s); cbn; [done|]. intros [= <-]. by apply IH.
Qed.

Lemma quote_raises s safe e : quote s safe = Raise e → e = UnicodeEncodeError.
Proof.
  unfold quote. case_match; [done|].
  destruct (encode s) eqn:He; cbn; [done|]. intros [= <-]. by eapply encode_raises.
Qed.

Lemma quote_plus_raises s e : quote_plus s = Raise e → e = UnicodeEncodeError.
Proof.
  unfold quote_plus. case_match; [apply quote_raises|].
  destruct (quote s (py " ")) eqn:Hq; [done|]. intros [= <-]. by eapply quote_raises.
Qed.

(** Whatever ends the loop with an exception, the exit status is 1. *)
Lemma crawl_exit_status fuel :
  ∀ u all_restaurants w e w',
    crawl fuel u all_restaurants w = Some (Raise e, w') → exit_status e = 1%Z.
Proof.
  induction fuel as [|fuel IH]; intros u all_restaurants w e w'.
  - simpl. by destruct (truthy u).
  - rewrite crawl_unfold. destruct (truthy u); [|done].
    unfold fetch_page. destruct (requests_get (default [] u)) as [soup|msg].
    + destruct (parse_restaurants soup) as [restaurants|e'] eqn:Hparse.
      * destruct (get_next_page_url soup base_url) as [next|e'] eqn:Hnext; [apply IH|].
        intros [= <- <-]. by rewrite (get_next_page_url_raises _ _ _ Hnext).
      * intros [= <- <-]. by rewrite (parse_restaurants_raises _ _ Hparse).
    + by intros [= <- <-].
Qed.

(** A crawl that returns a list neither reads nor changes the world. *)
Lemma crawl_Ok_any_world fuel :
  ∀ u all_restaurants w results w' w2,
    crawl fuel u all_restaurants w = Some (Ok results, w') →
    w' = w ∧ crawl fuel u all_restaurants w2 = Some (Ok results, w2).
Proof.
  induction fuel as [|fuel IH]; intros u all_restaurants w results w' w2.
  - simpl. destruct (truthy u); [done|]. by intros [= <- <-].
  - rewrite !crawl_unfold. destruct (truthy u); [|by intros [= <- <-]].
    unfold fetch_page. destruct (requests_get (default [] u)) as [soup|msg]; [|done].
    destruct (parse_restaurants soup) as [restaurants|e]; [|done].
    destruct (get_next_page_url soup base_url) as [next|e]; [|done].
    apply IH.
Qed.

Lemma scrape_yellow_pages_world fuel location w r w' :
  scrape_yellow_pages fuel location w = Some (r, w') →
  files w' = files w ∧ (∀ results, r = Ok results → w' = w).
Proof.
  rewrite scrape_yellow_pages_unfold.
  destruct (quote_plus location) as [quoted|e]; [|by intros [= <- <-]].
  intros Hcrawl. destruct (crawl_world _ _ _ _ _ _ Hcrawl) as [Hfiles Hw].
  split; [done|]. intros results ->.
  by destruct (crawl_Ok_any_world _ _ _ _ _ _ w Hcrawl) as [-> _].
Qed.

(** X1: [scrape_yellow_pages] never touches a file, whatever the site
    answers and however the run ends; when it returns a list, the console
    is unchanged too. *)
Theorem scrape_yellow_pages_keeps_files fuel location w r w' :
  scrape_yellow_pages fuel location w = Some (r, w') →
  files w' = files w ∧ (∀ results, r = Ok results → w' = w).
Proof. apply scrape_yellow_pages_world. Qed.

(** X4: when a page that is reached has a listing block without a name
    element, the script ends with exit status 1 and the world as it was:
    no file is written and nothing is printed by the script. *)
Theorem main_markup_fault
    script location rest quoted w pages results url soup b fuel :
  quote_plus location = Ok quoted →
  visits (Some (search_url quoted)) pages (Some url) →
  truthy (Some url) = true →
  Forall2 (λ soup restaurants, parse_restaurants soup = Ok restaurants)
          pages results →
  requests_get url = Page soup →
  b ∈ listing_blocks soup →
  name_element b = None →
  length pages < fuel →
  main fuel (script :: location :: rest) w = Some (1%Z, w).
Proof.
  intros Hquote Hchain Hmore Hparse Hget Hin Hb Hfuel.
  rewrite main_unfold, scrape_yellow_pages_unfold, Hquote.
  assert (parse_restaurants soup = Raise AttributeError) as Hraise.
  { by eapply for_each_parse_restaurant_fault. }
  by rewrite (crawl_parse_raises _ _ _ _ _ _ Hchain results url soup AttributeError
                fuel [] w eq_refl Hmore Hparse Hget Hraise Hfuel).
Qed.

End RunProperties.

(** ** Stripped names and phones *)

Lemma lstrip_by_split p s :
  ∃ removed, s = removed ++ lstrip_by p s ∧ Forall (λ c, p c = true) removed.
Proof.
  induction s as [|c s (removed & Hs & Hall)]; simpl.
  - by exists [].
  - destruct (p c) eqn:Hc.
    + exists (c :: removed). split; [by rewrite Hs at 1|by constructor].
    + by exists [].
Qed.

Lemma lstrip_by_head p s c s' : lstrip_by p s = c :: s' → p c = false.
Proof.
  induction s as [|x s IH]; simpl; [done|].
  destruct (p x) eqn:Hx; [done|]. by intros [= <- _].
Qed.

Lemma rstrip_by_split p s :
  ∃ removed, s = rstrip_by p s ++ removed ∧ Forall (λ c, p c = true) removed.
Proof.
  destruct (lstrip_by_split p (reverse s)) as (removed & Hs & Hall).
  exists (reverse removed). split; [|by apply Forall_reverse].
  unfold rstrip_by. rewrite <-reverse_app, <-Hs. by rewrite reverse_involutive.
Qed.

Lemma rstrip_by_last p s c : last (rstrip_by p s) = Some c → p c = false.
Proof.
  unfold rstrip_by. rewrite last_reverse.
  destruct (lstrip_by p (reverse s)) as [|x t] eqn:Hstrip; [done|].
  intros [= <-]. by eapply lstrip_by_head.
Qed.

Lemma strip_by_head p s c : head (strip_by p s) = Some c → p c = false.
Proof.
  unfold strip_by.
  destruct (rstrip_by_split p (lstrip_by p s)) as (removed & Hs & Hall).
  destruct (lstrip_by p s) as [|x t] eqn:Hstrip.
  - by destruct (rstrip_by p []), removed.
  - pose proof (lstrip_by_head _ _ _ _ Hstrip) as Hx.
    destruct (rstrip_by p (x :: t)) as [|y t'].
    + simpl in Hs. subst removed. apply Forall_cons in Hall as [Hpx _]. congruence.
    + injection Hs as <- _. by intros [= <-].
Qed.

Lemma strip_by_last p s c : last (strip_by p s) = Some c → p c = false.
Proof. apply rstrip_by_last. Qed.

(** X6: every name and every phone that [parse_restaurants] returns is
    trimmed: it neither starts nor ends with a whitespace character. *)
Theorem parse_restaurants_trimmed soup restaurants :
  parse_restaurants soup = Ok restaurants →
  Forall (λ r, ∀ field c,
            field = r.1 ∨ field = r.2 →
            head field = Some c ∨ last field = Some c →
            isspace c = false)
         restaurants.
Proof.
  unfold parse_restaurants. intros H.
  destruct (for_each_parse_restaurant _ _ _ H) as (new & -> & Hnew). simpl.
  clear H.
  induction Hnew as [|b r blocks new [Hname Hphone] _ IH]; [constructor|].
  constructor; [|exact IH].
  apply restaurant_name_Ok_inv in Hname as (e & _ & Hname).
  assert (∀ s c, head (strip s) = Some c ∨ last (strip s) = Some c → isspace c = false)
    as Hstrip.
  { intros s c [Hc|Hc]; [by eapply strip_by_head|by eapply strip_by_last]. }
  intros field c [-> | ->] Hc.
  - rewrite Hname in Hc. by eapply Hstrip.
  - rewrite Hphone in Hc. unfold phone_number in Hc.
    destruct (phone_element b); [by eapply Hstrip|].
    by destruct Hc as [[= <-] | [= <-]].
Qed.

(** X7: [parse_restaurants] returns the empty list exactly when every
    listing block has a name element and a website link; a page without
    listing blocks is one such page. *)
Theorem parse_restaurants_empty_iff soup :
  parse_restaurants soup = Ok [] ↔
  ∀ b, b ∈ listing_blocks soup →
       is_Some (name_element b) ∧ is_Some (website_link b).
Proof.
  unfold parse_restaurants. split.
  - intros H b Hin.
    destruct (for_each_parse_restaurant _ _ _ H) as (new & Hnil & Hnew).
    symmetry in Hnil. apply app_eq_nil in Hnil as [_ ->].
    apply Forall2_nil_inv_r in Hnew.
    split.
    + destruct (name_element b) eqn:Hb; [by eexists|].
      by rewrite (for_each_parse_restaurant_fault _ _ b Hin Hb) in H.
    + destruct (website_link b) eqn:Hlink; [by eexists|].
      assert (b ∈ filter (λ b, website_link b = None) (listing_blocks soup)) as Hfb.
      { by apply list_elem_of_filter. }
      rewrite Hnew in Hfb. by apply not_elem_of_nil in Hfb.
  - intros Hall.
    destruct (for_each_parse_restaurant_total (listing_blocks soup) []) as [result H].
    { apply Forall_forall. intros b Hin. by apply Hall. }
    rewrite H. f_equal.
    destruct (for_each_parse_restaurant _ _ _ H) as (new & -> & Hnew). simpl.
    assert (filter (λ b, website_link b = None) (listing_blocks soup) = []) as Hnone.
    { apply elem_of_nil_inv. intros b [Hnolink Hin]%list_elem_of_filter.
      destruct (Hall b Hin) as [_ [link Hlink]]. congruence. }
    rewrite Hnone in Hnew. by apply Forall2_nil_inv_l in Hnew.
Qed.

(** ** Quoting the location *)

Section Quoting.

Local Open Scope N_scope.

Local Ltac divlia := zify; Z.to_euclidean_division_equations; lia.

Lemma encode_char_spec c bs :
  encode_char c = Some bs →
  Forall (λ b, b < 256) bs ∧
  (c < 128 ∧ bs = [c] ∨ 128 ≤ c ∧ Forall (λ b, 128 ≤ b) bs).
Proof.
  unfold encode_char.
  destruct (N.ltb_spec c 128); [intros [= <-]; split; [repeat constructor; lia|by left]|].
  destruct (N.ltb_spec c 2048).
  { intros [= <-]. split; [|right; split; [done|]]; repeat constructor; divlia. }
  destruct (N.ltb_spec c 65536).
  { destruct ((55296 <=? c) && (c <=? 57343)); [done|].
    intros [= <-]. split; [|right; split; [done|]]; repeat constructor; divlia. }
  destruct (N.ltb_spec c 1114112); [|done].
  intros [= <-]. split; [|right; split; [done|]]; repeat constructor; divlia.
Qed.

Lemma contains_app c s t : contains c (s ++ t) = contains c s || contains c t.
Proof. apply existsb_app. Qed.

Lemma contains_false_ge c s : Forall (λ b, c < b) s → contains c s = false.
Proof.
  induction 1 as [|b s Hb _ IH]; [done|]. simpl. rewrite IH.
  destruct (N.eqb_spec c b); [lia|done].
Qed.

Lemma encode_spec s bs :
  encode s = Ok bs →
  Forall (λ b, b < 256) bs ∧ contains 32 bs = contains 32 s.
Proof.
  revert bs. induction s as [|c s IH]; intros bs; simpl; [by intros [= <-]|].
  destruct (encode_char c) as [cs|] eqn:Hc; [|done].
  destruct (encode s) as [rest|]; [|done]. cbn. intros [= <-].
  destruct (IH rest eq_refl) as [Hlt Hsp].
  destruct (encode_char_spec _ _ Hc) as [Hcs Hkind].
  split; [by apply Forall_app|].
  rewrite contains_app, Hsp. f_equal.
  destruct Hkind as [[_ ->]|[Hc128 Hge]]; [simpl; by rewrite orb_false_r|].
  rewrite contains_false_ge by (eapply Forall_impl; [done|]; simpl; lia).
  change (false = (32 =? c)). destruct (N.eqb_spec 32 c); [lia|done].
Qed.

Lemma flat_map_quoter_safe safe bs :
  forallb (λ b, always_safe b || contains b safe) bs = true →
  flat_map (quoter safe) bs = bs.
Proof.
  induction bs as [|b bs IH]; [done|]. simpl.
  intros [Hb Hbs]%andb_true_iff. unfold quoter at 1. rewrite Hb. simpl.
  by rewrite IH.
Qed.

Lemma quote_from_bytes_flat_map bs safe :
  quote_from_bytes bs safe = flat_map (quoter safe) bs.
Proof.
  unfold quote_from_bytes.
  destruct (forallb _ bs) eqn:Hall; [|done]. by rewrite flat_map_quoter_safe.
Qed.

Lemma always_safe_not_special b :
  always_safe b = true → b ≠ 32 ∧ b ≠ 37 ∧ b ≠ 43.
Proof. intros Hb. repeat split; by intros ->. Qed.

Lemma always_safe_ascii b : always_safe b = true → b < 128.
Proof.
  unfold always_safe, is_upper, is_lower, is_digit, contains.
  change (py "_.-~") with [95; 46; 45; 126]. cbn [existsb].
  rewrite !orb_true_iff, !andb_true_iff, !N.leb_le, !N.eqb_eq. lia.
Qed.

Lemma hex_digit_safe d : d < 16 → always_safe (hex_digit d) = true.
Proof.
  intros Hd.
  assert (d ∈ [0;1;2;3;4;5;6;7;8;9;10;11;12;13;14;15]) as Hin.
  { repeat (rewrite elem_of_cons). rewrite elem_of_nil. lia. }
  repeat (apply elem_of_cons in Hin as [->|Hin]; [reflexivity|]).
  by apply elem_of_nil in Hin.
Qed.

(** The replacement of spaces after quoting with the space as safe
    character comes to the same as quoting byte by byte. *)
Lemma quote_space_replace bs :
  (λ c, if c =? 32 then 43 else c) <$> flat_map (quoter (py " ")) bs =
  flat_map quote_plus_byte bs.
Proof.
  induction bs as [|b bs IH]; [done|]. simpl.
  rewrite fmap_app, IH. f_equal.
  unfold quote_plus_byte, quoter.
  destruct (N.eqb_spec b 32) as [->|Hb]; [done|].
  assert (contains b (py " ") = false) as ->.
  { change (py " ") with [32]. unfold contains. cbn [existsb].
    rewrite orb_false_r. by apply N.eqb_neq. }
  change (contains b []) with false.
  rewrite !orb_false_r. destruct (always_safe b) eqn:Hsafe; cbn [fmap list_fmap].
  - by destruct (N.eqb_spec b 32).
  - unfold hex_digit. change (37 =? 32) with false. cbv iota.
    repeat match goal with
           | |- context [?x <? 10] => destruct (N.ltb_spec x 10)
           | |- context [?x =? 32] => destruct (N.eqb_spec x 32); [divlia|]
           end; reflexivity.
Qed.

Lemma quote_no_space bs :
  contains 32 bs = false →
  flat_map (quoter []) bs = flat_map quote_plus_byte bs.
Proof.
  induction bs as [|b bs IH]; [done|]. simpl.
  intros [Hb Hbs]%orb_false_iff. rewrite IH by done. f_equal.
  unfold quote_plus_byte. destruct (N.eqb_spec b 32) as [->|]; [done|done].
Qed.

(** [quote_plus] encodes the string and then quotes byte by byte. *)
Lemma quote_plus_spec s :
  quote_plus s =
  match encode s with
  | Ok bs => Ok (flat_map quote_plus_byte bs)
  | Raise e => Raise e
  end.
Proof.
  destruct s as [|c s]; [done|].
  unfold quote_plus, quote. cbn [truthy negb].
  destruct (encode (c :: s)) as [bs|e] eqn:Hencode; cbn [mbind outcome_bind].
  - destruct (encode_spec _ _ Hencode) as [_ Hsp].
    rewrite !quote_from_bytes_flat_map.
    destruct (contains 32 (c :: s)) eqn:Hs; cbn [negb].
    + by rewrite quote_space_replace.
    + by rewrite quote_no_space by congruence.
  - by destruct (negb (contains 32 (c :: s))).
Qed.

Lemma quote_plus_byte_alphabet b :
  b < 256 →
  Forall (λ c, always_safe c = true ∨ c = 37 ∨ c = 43) (quote_plus_byte b).
Proof.
  intros Hb. unfold quote_plus_byte, quoter.
  destruct (b =? 32); [constructor; [by right; right|constructor]|].
  change (contains b []) with false. rewrite orb_false_r.
  destruct (always_safe b) eqn:Hsafe; [constructor; [by left|constructor]|].
  constructor; [by right; left|].
  constructor; [left; apply hex_digit_safe; divlia|].
  constructor; [left; apply hex_digit_safe; divlia|constructor].
Qed.

(** X8: the quoted location is made of ASCII letters, digits and the
    characters [_ . - ~ % +] only, and so is the name of the output file;
    in particular the name holds no [/], so the file lies in the working
    directory. *)
Theorem quote_plus_alphabet location quoted :
  quote_plus location = Ok quoted →
  Forall (λ c, always_safe c = true ∨ c = 37 ∨ c = 43) quoted ∧
  Forall (λ c, always_safe c = true ∨ c = 37 ∨ c = 43) (output_filename quoted) ∧
  contains 47 (output_filename quoted) = false.
Proof.
  rewrite quote_plus_spec.
  destruct (encode location) as [bs|] eqn:Hencode; [|done]. intros [= <-].
  destruct (encode_spec _ _ Hencode) as [Hbytes _].
  assert (Forall (λ c, always_safe c = true ∨ c = 37 ∨ c = 43)
                 (flat_map quote_plus_byte bs)) as Hquoted.
  { clear Hencode. induction Hbytes as [|b bs Hb _ IH]; [constructor|].
    simpl. apply Forall_app. split; [by apply quote_plus_byte_alphabet|done]. }
  assert (Forall (λ c, always_safe c = true ∨ c = 37 ∨ c = 43)
                 (output_filename (flat_map quote_plus_byte bs))) as Hname.
  { unfold output_filename. rewrite !Forall_app. repeat split; [|done|].
    - apply Forall_forall. intros c Hc. left.
      repeat (apply elem_of_cons in Hc as [->|Hc]; [reflexivity|]).
      by apply elem_of_nil in Hc.
    - apply Forall_forall. intros c Hc. left.
      repeat (apply elem_of_cons in Hc as [->|Hc]; [reflexivity|]).
      by apply elem_of_nil in Hc. }
  repeat split; [done|done|].
  induction Hname as [|c s Hc _ IH]; [done|].
  unfold contains in *. cbn [existsb]. rewrite IH, orb_false_r.
  apply N.eqb_neq. by destruct Hc as [Hc|[->| ->]]; [intros <-|..].
Qed.

Lemma hex_digit_inj d1 d2 :
  d1 < 16 → d2 < 16 → hex_digit d1 = hex_digit d2 → d1 = d2.
Proof.
  unfold hex_digit. intros H1 H2.
  destruct (N.ltb_spec d1 10), (N.ltb_spec d2 10); lia.
Qed.

(** The text of a byte tells the byte, and where its text ends. *)
Lemma quote_plus_byte_prefix b1 b2 r1 r2 :
  b1 < 256 → b2 < 256 →
  quote_plus_byte b1 ++ r1 = quote_plus_byte b2 ++ r2 →
  b1 = b2 ∧ r1 = r2.
Proof.
  intros H1 H2. unfold quote_plus_byte, quoter.
  change (contains b1 []) with false. change (contains b2 []) with false.
  rewrite !orb_false_r.
  destruct (N.eqb_spec b1 32) as [->|Hb1], (N.eqb_spec b2 32) as [->|Hb2].
  - by intros [= ->].
  - destruct (always_safe b2) eqn:Hs2; [|done].
    intros [= <- _]. by apply always_safe_not_special in Hs2 as (_ & _ & ?).
  - destruct (always_safe b1) eqn:Hs1; [|done].
    intros [= -> _]. by apply always_safe_not_special in Hs1 as (_ & _ & ?).
  - destruct (always_safe b1) eqn:Hs1, (always_safe b2) eqn:Hs2.
    + by intros [= -> ->].
    + intros [= -> _]. by apply always_safe_not_special in Hs1 as (_ & ? & _).
    + intros [= <- _]. by apply always_safe_not_special in Hs2 as (_ & ? & _).
    + intros [= Hhi Hlo ->].
      apply hex_digit_inj in Hhi; [|divlia..].
      apply hex_digit_inj in Hlo; [|divlia..].
      split; [divlia|done].
Qed.

Lemma flat_map_quote_plus_byte_inj bs1 :
  ∀ bs2,
    Forall (λ b, b < 256) bs1 → Forall (λ b, b < 256) bs2 →
    flat_map quote_plus_byte bs1 = flat_map quote_plus_byte bs2 →
    bs1 = bs2.
Proof.
  induction bs1 as [|b1 bs1 IH]; intros [|b2 bs2] H1 H2; simpl.
  - done.
  - unfold quote_plus_byte, quoter. by repeat case_match.
  - unfold quote_plus_byte, quoter. by repeat case_match.
  - apply Forall_cons in H1 as [Hb1 H1]. apply Forall_cons in H2 as [Hb2 H2].
    intros [-> Hrest]%quote_plus_byte_prefix; [|done..].
    f_equal. by apply IH.
Qed.

(** The bytes of a code point tell the code point. *)
Lemma encode_char_prefix c1 c2 bs1 bs2 r1 r2 :
  encode_char c1 = Some bs1 → encode_char c2 = Some bs2 →
  bs1 ++ r1 = bs2 ++ r2 → c1 = c2.
Proof.
  unfold encode_char.
  destruct (N.ltb_spec c1 128), (N.ltb_spec c1 2048), (N.ltb_spec c1 65536),
    (N.ltb_spec c1 1114112), ((55296 <=? c1) && (c1 <=? 57343));
    try done; try lia;
    destruct (N.ltb_spec c2 128), (N.ltb_spec c2 2048), (N.ltb_spec c2 65536),
      (N.ltb_spec c2 1114112), ((55296 <=? c2) && (c2 <=? 57343));
    try done; try lia;
    intros [= <-] [= <-] [= ? ?]; try divlia.
Qed.

Lemma encode_char_nonempty c bs : encode_char c = Some bs → bs ≠ [].
Proof. unfold encode_char. repeat case_match; by intros [= <-]. Qed.

Lemma encode_inj s1 :
  ∀ s2 bs, encode s1 = Ok bs → encode s2 = Ok bs → s1 = s2.
Proof.
  induction s1 as [|c1 s1 IH]; intros [|c2 s2] bs; simpl.
  - done.
  - intros [= <-].
    destruct (encode_char c2) as [cs|] eqn:Hc; [|done].
    destruct (encode s2); [|done]. cbn. intros [= H].
    destruct cs; [|done]. by apply encode_char_nonempty in Hc.
  - destruct (encode_char c1) as [cs|] eqn:Hc; [|done].
    destruct (encode s1); [|done]. cbn. intros [= <-] [= H].
    destruct cs; [|done]. by apply encode_char_nonempty in Hc.
  - destruct (encode_char c1) as [cs1|] eqn:Hc1; [|done].
    destruct (encode s1) as [rest1|] eqn:Hs1; [|done]. cbn. intros [= <-].
    destruct (encode_char c2) as [cs2|] eqn:Hc2; [|done].
    destruct (encode s2) as [rest2|] eqn:Hs2; [|done]. cbn. intros [= H].
    assert (c1 = c2) as <- by (by eapply encode_char_prefix).
    assert (cs2 = cs1) as -> by congruence.
    apply app_inv_head in H as ->. f_equal. by eapply IH.
Qed.

(** X9: [quote_plus] loses nothing: two locations with the same quoted
    form are the same location, so two different locations never share an
    output file or a first URL. *)
Theorem quote_plus_inj location1 location2 quoted1 quoted2 :
  quote_plus location1 = Ok quoted1 →
  quote_plus location2 = Ok quoted2 →
  quoted1 = quoted2 ∨
  output_filename quoted1 = output_filename quoted2 ∨
  search_url quoted1 = search_url quoted2 →
  location1 = location2.
Proof.
  rewrite !quote_plus_spec.
  destruct (encode location1) as [bs1|] eqn:H1; [|done].
  destruct (encode location2) as [bs2|] eqn:H2; [|done].
  intros [= <-] [= <-] Hsame.
  assert (flat_map quote_plus_byte bs1 = flat_map quote_plus_byte bs2) as Hq.
  { destruct Hsame as [H|[H|H]]; [done| |].
    - unfold output_filename in H. apply app_inv_head in H. by apply app_inv_tail in H.
    - unfold search_url in H. apply app_inv_head in H. by apply app_inv_head in H. }
  apply flat_map_quote_plus_byte_inj in Hq;
    [|by eapply encode_spec|by eapply encode_spec].
  subst bs2. by eapply encode_inj.
Qed.

Lemma encode_char_is_Some c :
  is_Some (encode_char c) ↔ (c < 55296 ∨ 57343 < c) ∧ c < 1114112.
Proof.
  unfold encode_char.
  destruct (N.ltb_spec c 128); [split; [lia|by eexists]|].
  destruct (N.ltb_spec c 2048); [split; [lia|by eexists]|].
  destruct (N.ltb_spec c 65536).
  { destruct (N.leb_spec 55296 c), (N.leb_spec c 57343); cbn [andb];
      (split; [intros [? ?]; try done; lia|intros ?; try lia; by eexists]). }
  destruct (N.ltb_spec c 1114112); [split; [lia|by eexists]|].
  split; [by intros [? ?]|lia].
Qed.

Lemma encode_is_Ok s :
  (∃ bs, encode s = Ok bs) ↔ Forall (λ c, is_Some (encode_char c)) s.
Proof.
  induction s as [|c s IH]; simpl.
  - split; [constructor|by eexists].
  - rewrite Forall_cons, <-IH. destruct (encode_char c) as [cs|].
    + destruct (encode s) as [rest|]; cbn.
      * split; [intros _; split; by eexists|by eexists].
      * split; [by intros [? ?]|by intros [_ [? ?]]].
    + split; [by intros [? ?]|by intros [[? ?] _]].
Qed.

Lemma quote_plus_Ok_iff location :
  (∃ quoted, quote_plus location = Ok quoted) ↔
  Forall (λ c, (c < 55296 ∨ 57343 < c) ∧ c < 1114112) location.
Proof.
  rewrite quote_plus_spec.
  transitivity (∃ bs, encode location = Ok bs).
  - destruct (encode location) as [bs|]; split; intros [? ?]; by eexists.
  - rewrite encode_is_Ok. apply Forall_proper; [|done].
    intros c. apply encode_char_is_Some.
Qed.

(** X10: [quote_plus] returns exactly for the strings of Unicode scalar
    values: code points below 0x110000 outside the surrogate range
    0xD800-0xDFFF; on any other string it raises [UnicodeEncodeError]. *)
Theorem quote_plus_returns_iff location :
  ((∃ quoted, quote_plus location = Ok quoted) ↔
   Forall (λ c, (c < 55296 ∨ 57343 < c) ∧ c < 1114112) location)
  ∧ (∀ e, quote_plus location = Raise e → e = UnicodeEncodeError).
Proof.
  split; [apply quote_plus_Ok_iff|apply quote_plus_raises].
Qed.

(** X11: a location with a surrogate code point, as an undecodable byte of
    the command line leaves one, ends the script with exit status 1 before
    anything is fetched: the result is the same for every site and every
    budget, and the world is as it was. *)
Theorem main_unquotable_location
    check1 check2 requests_get fuel script location rest w c :
  c ∈ location → 55296 ≤ c ≤ 57343 →
  main check1 check2 requests_get fuel (script :: location :: rest) w = Some (1%Z, w).
Proof.
  intros Hin Hc.
  rewrite main_unfold, scrape_yellow_pages_unfold.
  destruct (quote_plus location) as [quoted|e] eqn:Hquote.
  - assert (∃ quoted, quote_plus location = Ok quoted) as Hok by by eexists.
    apply quote_plus_Ok_iff in Hok.
    rewrite Forall_forall in Hok. specialize (Hok c Hin). lia.
  - by rewrite (quote_plus_raises _ _ Hquote).
Qed.

(** X12: a location made of ASCII letters, digits and [_ . - ~] is its own
    quoted form, so it appears unchanged in the first URL and in the name
    of the output file. *)
Theorem quote_plus_safe_unchanged location :
  Forall (λ c, always_safe c = true) location →
  quote_plus location = Ok location.
Proof.
  intros Hsafe. rewrite quote_plus_spec.
  assert (encode location = Ok location ∧
          flat_map quote_plus_byte location = location) as [-> ->]; [|done].
  induction Hsafe as [|c s Hc _ [IHe IHq]]; [done|]. split.
  - simpl. rewrite IHe.
    assert (c < 128) as Hascii.
    { by apply always_safe_ascii. }
    unfold encode_char. by destruct (N.ltb_spec c 128); [|lia].
  - simpl. rewrite IHq. unfold quote_plus_byte, quoter. rewrite Hc.
    destruct (N.eqb_spec c 32) as [->|]; done.
Qed.

End Quoting.

(** ** The next URL is never empty *)

Lemma urlunparse_scheme r :
  truthy (Some (scheme r)) = true → truthy (Some (urlunparse r)) = true.
Proof.
  destruct r as [sch nl p prm q f]. cbn [scheme].
  destruct sch as [|c sch]; [done|]. intros _.
  unfold urlunparse, urlunsplit.
  cbn [s_scheme s_netloc s_path s_query s_fragment
       scheme netloc path params query fragment].
  by repeat case_match.
Qed.

(** X13: a URL that [get_next_page_url] returns under the base of the
    script is never the empty string, so the loop of [scrape_yellow_pages]
    stops only when the paginator returns [None]. *)
Theorem get_next_page_url_nonempty check1 check2 soup u :
  get_next_page_url check1 check2 soup base_url = Ok (Some u) →
  truthy (Some u) = true.
Proof.
  destruct (find (py "a") (py "next") soup) as [button|] eqn:Hfind;
    [|by rewrite get_next_page_url_no_button].
  destruct (truthy (get (py "href") button)) eqn:Hhref;
    [|by rewrite (get_next_page_url_falsy_href _ _ _ _ _ Hfind Hhref)].
  destruct (get (py "href") button) as [href|] eqn:Hget; [|done].
  rewrite (get_next_page_url_href _ _ _ _ _ _ Hfind Hget Hhref).
  destruct (urlparse check1 check2 href (py "https")) as [pu|e] eqn:Hparse.
  - destruct (urljoin_base check1 check2 href pu Hhref Hparse) as (H1 & H2 & H3).
    destruct (decide (scheme pu = py "https")) as [Hs|Hs].
    + destruct (decide (netloc pu = [])) as [Hn|Hn].
      * destruct (H3 Hs Hn) as [rest ->]. by intros [= <-].
      * rewrite (H2 Hs Hn). intros [= <-].
        apply urlunparse_scheme. by rewrite Hs.
    + rewrite (H1 Hs). by intros [= <-].
  - unfold urljoin. rewrite Hhref, urlparse_base.
    change (truthy (Some base_url)) with true.
    cbn [negb mbind outcome_bind scheme]. by rewrite Hparse.
Qed.

(** ** The rows of the CSV file *)

Section Csv.

Local Open Scope N_scope.

Local Abbreviation csv_data field :=
  (flat_map (λ c : N, if c =? quotechar then [quotechar; c] else [c]) field).

Lemma csv_data_plain field :
  existsb csv_special field = false → csv_data field = field.
Proof.
  induction field as [|c field IH]; [done|]. cbn [existsb flat_map].
  intros [Hc Hfield]%orb_false_iff. rewrite IH by done.
  unfold csv_special in Hc. apply orb_false_iff in Hc as [Hc _].
  apply orb_false_iff in Hc as [Hc _]. apply orb_false_iff in Hc as [_ Hc].
  by rewrite Hc.
Qed.

Lemma csv_field_plain field :
  existsb csv_special field = false → csv_field field = field.
Proof. intros H. unfold csv_field. rewrite H. by apply csv_data_plain. Qed.

Lemma csv_row_pair name phone :
  csv_row [name; phone] = csv_field name ++ 44 :: csv_field phone ++ [13; 10].
Proof.
  unfold csv_row. destruct name; cbn [fmap list_fmap join];
    by rewrite <-!app_assoc.
Qed.

(** X14: a name and a phone without comma, quote character, carriage
    return or line feed are written as they are: the row is the name, a
    comma, the phone and the line end. *)
Theorem csv_row_plain name phone :
  existsb csv_special name = false →
  existsb csv_special phone = false →
  csv_row [name; phone] = name ++ py "," ++ phone ++ [13; 10].
Proof.
  intros Hname Hphone.
  by rewrite csv_row_pair, !csv_field_plain.
Qed.

(** An unquoted field ends at the first delimiter. *)
Lemma plain_delimited a :
  ∀ b d1 d2 r1 r2,
    existsb csv_special a = false → existsb csv_special b = false →
    csv_special d1 = true → csv_special d2 = true →
    a ++ d1 :: r1 = b ++ d2 :: r2 →
    a = b ∧ d1 = d2 ∧ r1 = r2.
Proof.
  induction a as [|x a IH]; intros [|y b] d1 d2 r1 r2 Ha Hb Hd1 Hd2; simpl.
  - by intros [= -> ->].
  - intros [= -> _]. cbn [existsb] in Hb. apply orb_false_iff in Hb as [Hb _]. congruence.
  - intros [= -> _]. cbn [existsb] in Ha. apply orb_false_iff in Ha as [Ha _]. congruence.
  - cbn [existsb] in Ha, Hb.
    apply orb_false_iff in Ha as [_ Ha]. apply orb_false_iff in Hb as [_ Hb].
    intros [= -> Hrest].
    by destruct (IH _ _ _ _ _ Ha Hb Hd1 Hd2 Hrest) as (-> & -> & ->).
Qed.

(** A quoted field ends at the first quote character that is not doubled. *)
Lemma quoted_delimited a :
  ∀ b d1 d2 r1 r2,
    d1 ≠ quotechar → d2 ≠ quotechar →
    csv_data a ++ quotechar :: d1 :: r1 = csv_data b ++ quotechar :: d2 :: r2 →
    a = b ∧ d1 = d2 ∧ r1 = r2.
Proof.
  induction a as [|x a IH]; intros [|y b] d1 d2 r1 r2 Hd1 Hd2; cbn [flat_map].
  - by intros [= -> ->].
  - destruct (N.eqb_spec y quotechar) as [->|Hy]; simpl; intros [= ? ?]; congruence.
  - destruct (N.eqb_spec x quotechar) as [->|Hx]; simpl; intros [= ? ?]; congruence.
  - destruct (N.eqb_spec x quotechar) as [->|Hx],
      (N.eqb_spec y quotechar) as [->|Hy]; simpl.
    + intros [= Hrest].
      by destruct (IH _ _ _ _ _ Hd1 Hd2 Hrest) as (-> & -> & ->).
    + intros [= ? ?]. congruence.
    + intros [= ? ?]. congruence.
    + intros [= -> Hrest].
      by destruct (IH _ _ _ _ _ Hd1 Hd2 Hrest) as (-> & -> & ->).
Qed.

(** A field followed by a comma or by the line end can be read back. *)
Lemma csv_field_delimited a b d1 d2 r1 r2 :
  d1 = 44 ∨ d1 = 13 → d2 = 44 ∨ d2 = 13 →
  csv_field a ++ d1 :: r1 = csv_field b ++ d2 :: r2 →
  a = b ∧ d1 = d2 ∧ r1 = r2.
Proof.
  intros Hd1 Hd2.
  assert (csv_special d1 = true ∧ d1 ≠ quotechar) as [Hs1 Hq1].
  { by destruct Hd1 as [-> | ->]. }
  assert (csv_special d2 = true ∧ d2 ≠ quotechar) as [Hs2 Hq2].
  { by destruct Hd2 as [-> | ->]. }
  unfold csv_field.
  destruct (existsb csv_special a) eqn:Ha, (existsb csv_special b) eqn:Hb.
  - rewrite <-!app_assoc. simpl. intros [= H]. by eapply quoted_delimited.
  - rewrite (csv_data_plain b) by done. rewrite <-!app_assoc. simpl.
    destruct b as [|y b]; simpl; intros [= ? ?]; [congruence|].
    subst y. cbn [existsb] in Hb. by apply orb_false_iff in Hb as [? _].
  - rewrite (csv_data_plain a) by done. rewrite <-!app_assoc. simpl.
    destruct a as [|x a]; simpl; intros [= ? ?]; [congruence|].
    subst x. cbn [existsb] in Ha. by apply orb_false_iff in Ha as [? _].
  - rewrite !csv_data_plain by done. by apply plain_delimited.
Qed.

Lemma csv_rows_inj data1 :
  ∀ data2 : list listing,
    concat ((λ r, csv_row [r.1; r.2]) <$> data1) =
    concat ((λ r, csv_row [r.1; r.2]) <$> data2) →
    data1 = data2.
Proof.
  induction data1 as [|[n1 p1] data1 IH]; intros [|[n2 p2] data2];
    cbn [fmap list_fmap concat fst snd]; rewrite ?csv_row_pair, <-?app_assoc.
  - done.
  - intros H. symmetry in H. apply app_eq_nil in H as [_ H]. done.
  - intros H. apply app_eq_nil in H as [_ H]. done.
  - cbn [app]. rewrite <-!app_assoc. cbn [app].
    intros (-> & _ & H)%csv_field_delimited; [|by left..].
    apply csv_field_delimited in H as (-> & _ & H); [|by right..].
    injection H as H. f_equal. by apply IH.
Qed.

End Csv.

(** ** The missing argument *)

(** X16: without a location argument the script prints the usage line and
    exits with status 1; nothing is fetched and no file is touched, so the
    result is the same for every site and every budget. *)
Theorem main_usage check1 check2 requests_get fuel argv w :
  (length argv ≤ 1)%nat →
  main check1 check2 requests_get fuel argv w =
  Some (1%Z, mkWorld (files w)
               (console w ++ [py "Usage: python script_name.py 'Location'"])).
Proof.
  destruct argv as [|script [|location rest]]; simpl; intros Hlen;
    [reflexivity|reflexivity|lia].
Qed.

(** ** The further properties on the mock pages *)

Lemma scrape_yellow_pages_keeps_files_failing :
  files (print (py "Request failed: 500 Server Error") empty_world) = files empty_world
  ∧ (∀ results : list listing,
       Raise (SystemExit 1) = Ok results →
       print (py "Request failed: 500 Server Error") empty_world = empty_world).
Proof.
  apply (scrape_yellow_pages_keeps_files accept accept failing_site 2
           (py "Chicago, IL") empty_world).
  reflexivity.
Defined.

Lemma main_markup_fault_nameless :
  main accept accept endless_nameless_site 1 argv_chicago empty_world =
  Some (1%Z, empty_world).
Proof.
  apply (main_markup_fault accept accept endless_nameless_site (py "yellow-scraper.py")
           (py "Chicago, IL") [] (py "Chicago%2C+IL") empty_world [] []
           chicago_url (document [nameless; next_anchor (py "/search?page=2")])
           nameless 1).
  - reflexivity.
  - apply visits_nil.
  - reflexivity.
  - constructor.
  - reflexivity.
  - change (nameless ∈ [nameless]). apply list_elem_of_here.
  - reflexivity.
  - simpl. lia.
Defined.

Lemma parse_restaurants_trimmed_two_kept :
  Forall (λ r : listing, ∀ field c,
            field = r.1 ∨ field = r.2 →
            head field = Some c ∨ last field = Some c →
            isspace c = false)
         [(py "Corner Cafe", py "No phone number available");
          (py "Joe's Diner", py "(312) 555-0100")].
Proof.
  apply (parse_restaurants_trimmed two_kept_page). reflexivity.
Defined.

Lemma quote_plus_alphabet_chicago :
  Forall (λ c, always_safe c = true ∨ c = 37%N ∨ c = 43%N) (py "Chicago%2C+IL") ∧
  Forall (λ c, always_safe c = true ∨ c = 37%N ∨ c = 43%N)
         (output_filename (py "Chicago%2C+IL")) ∧
  contains 47 (output_filename (py "Chicago%2C+IL")) = false.
Proof.
  apply (quote_plus_alphabet (py "Chicago, IL")). reflexivity.
Defined.

(** The locations [a+b] and [a b] do not share an output file. *)
Lemma quote_plus_inj_plus_space :
  output_filename (py "a%2Bb") ≠ output_filename (py "a+b").
Proof.
  intros Hname.
  assert (py "a+b" = py "a b") as Hsame; [|done].
  apply (quote_plus_inj (py "a+b") (py "a b") (py "a%2Bb") (py "a+b"));
    [reflexivity|reflexivity|]. right. by left.
Defined.

Lemma main_unquotable_location_surrogate :
  main accept accept chicago_site 5 [py "yellow-scraper.py"; [56575%N]] empty_world =
  Some (1%Z, empty_world).
Proof.
  apply (main_unquotable_location accept accept chicago_site 5 (py "yellow-scraper.py")
           [56575%N] [] empty_world 56575%N).
  - apply list_elem_of_here.
  - lia.
Defined.

Lemma quote_plus_safe_unchanged_chicago :
  quote_plus (py "Chicago") = Ok (py "Chicago").
Proof.
  apply (quote_plus_safe_unchanged (py "Chicago")).
  repeat constructor.
Defined.

Lemma get_next_page_url_nonempty_first_page :
  truthy (Some second_url) = true.
Proof.
  apply (get_next_page_url_nonempty accept accept first_page second_url).
  reflexivity.
Defined.

Lemma csv_row_plain_joes_diner :
  csv_row [py "Joe's Diner"; py "(312) 555-0100"] =
  py "Joe's Diner" ++ py "," ++ py "(312) 555-0100" ++ [13; 10]%N.
Proof.
  apply (csv_row_plain (py "Joe's Diner") (py "(312) 555-0100")); reflexivity.
Defined.


Lemma main_usage_script_only :
  main accept accept chicago_site 0 [py "yellow-scraper.py"] empty_world =
  Some (1%Z, mkWorld (files empty_world)
               (console empty_world ++ [py "Usage: python script_name.py 'Location'"])).
Proof.
  apply (main_usage accept accept chicago_site 0 [py "yellow-scraper.py"] empty_world).
  simpl. lia.
Defined.

(** ** The writer *)

Section Writer.

Local Open Scope N_scope.

Lemma encodable_iff s : encodable s ↔ Forall (λ c, is_Some (encode_char c)) s.
Proof. apply encode_is_Ok. Qed.

Lemma encodable_app s t : encodable (s ++ t) ↔ encodable s ∧ encodable t.
Proof. rewrite !encodable_iff. apply Forall_app. Qed.

Lemma encode_Raise_not_encodable s e : encode s = Raise e → ¬ encodable s.
Proof. intros H [bs Hbs]. congruence. Qed.

Lemma csv_special_contains field :
  existsb csv_special field =
  contains 44 field || contains 34 field || contains 13 field || contains 10 field.
Proof.
  induction field as [|c field IH]; [done|].
  unfold contains in *. cbn [existsb]. rewrite IH. unfold csv_special, quotechar.
  rewrite (N.eqb_sym 44 c), (N.eqb_sym 34 c), (N.eqb_sym 13 c), (N.eqb_sym 10 c).
  destruct (c =? 44), (c =? 34), (c =? 13), (c =? 10),
    (existsb (N.eqb 44) field), (existsb (N.eqb 34) field),
    (existsb (N.eqb 13) field), (existsb (N.eqb 10) field); reflexivity.
Qed.

(** The writer of the csv module gives the standard form of a field. *)
Lemma csv_field_standard field : csv_field field = standard_csv_field field.
Proof.
  unfold csv_field, standard_csv_field. rewrite <-csv_special_contains.
  destruct (existsb csv_special field) eqn:Hspecial.
  - do 2 f_equal. apply flat_map_ext. intros c.
    unfold quotechar. by destruct (N.eqb_spec c 34) as [->|].
  - by apply csv_data_plain.
Qed.

Lemma csv_row_standard name phone :
  csv_row [name; phone] = standard_csv_row (name, phone).
Proof.
  rewrite csv_row_pair, !csv_field_standard. reflexivity.
Qed.

Lemma encodable_standard_csv_field field :
  encodable (standard_csv_field field) ↔ encodable field.
Proof.
  unfold standard_csv_field.
  destruct (contains 44 field || _ || _ || _); [|done].
  rewrite !encodable_iff, !Forall_app, !Forall_singleton.
  assert (is_Some (encode_char 34)) as H34 by by eexists.
  assert (Forall (λ c, is_Some (encode_char c))
                 (flat_map (λ c, if c =? 34 then [34; 34] else [c]) field)
          ↔ Forall (λ c, is_Some (encode_char c)) field) as Hflat.
  { induction field as [|c field IH]; [done|]. cbn [flat_map].
    rewrite Forall_app, Forall_cons, IH.
    destruct (N.eqb_spec c 34) as [->|].
    - rewrite !Forall_cons. split; [by intros [_ ?]|].
      intros [? ?]. repeat split; try done; try constructor.
    - rewrite Forall_singleton. tauto. }
  split.
  - intros (_ & H & _). by apply Hflat.
  - intros H. repeat split; [done|by apply Hflat|done].
Qed.

Lemma encodable_standard_csv_row r :
  encodable (standard_csv_row r) ↔ encodable r.1 ∧ encodable r.2.
Proof.
  unfold standard_csv_row.
  rewrite !encodable_app, !encodable_standard_csv_field.
  assert (encodable (py ",")) by by eexists.
  assert (encodable [13; 10]) by by eexists. tauto.
Qed.

Lemma write_Ok (filename data old : str) (m : gmap str str) (c : list str) :
  encodable data →
  write filename data (mkWorld (<[filename := old]> m) c) =
  (Ok tt, mkWorld (<[filename := old ++ data]> m) c).
Proof.
  intros [bs Hbs]. unfold write. rewrite Hbs. simpl. by rewrite alter_insert_eq.
Qed.

Lemma write_Raise (filename data : str) (w : world) :
  ¬ encodable data → write filename data w = (Raise UnicodeEncodeError, w).
Proof.
  intros Hnot. unfold write. destruct (encode data) as [bs|e] eqn:He.
  - destruct Hnot. by exists bs.
  - by rewrite (encode_raises _ _ He).
Qed.

Local Abbreviation writerow filename :=
  (λ '(name, phone) w, write filename (csv_row [name; phone]) w).

Local Abbreviation row_ok := (λ r : listing, encodable r.1 ∧ encodable r.2).

Lemma write_rows_Ok (data : list listing) (filename old : str)
    (m : gmap str str) (c : list str) :
  Forall row_ok data →
  for_each_io (writerow filename) data (mkWorld (<[filename := old]> m) c) =
  (Ok tt, mkWorld (<[filename := old ++ concat (standard_csv_row <$> data)]> m) c).
Proof.
  intros Hall. revert old.
  induction Hall as [|[name phone] data Hr _ IH]; intros old.
  - simpl. by rewrite app_nil_r.
  - cbn [for_each_io]. rewrite csv_row_standard.
    rewrite write_Ok by by apply encodable_standard_csv_row.
    rewrite IH. cbn [fmap list_fmap concat]. by rewrite <-app_assoc.
Qed.

Lemma write_rows_Raise (written rest : list listing) (r : listing)
    (filename old : str) (m : gmap str str) (c : list str) :
  Forall row_ok written → ¬ row_ok r →
  for_each_io (writerow filename) (written ++ r :: rest)
    (mkWorld (<[filename := old]> m) c) =
  (Raise UnicodeEncodeError,
   mkWorld (<[filename := old ++ concat (standard_csv_row <$> written)]> m) c).
Proof.
  intros Hall Hr. revert old.
  induction Hall as [|[name phone] written Hok _ IH]; intros old.
  - destruct r as [name phone]. cbn [app for_each_io]. rewrite csv_row_standard.
    rewrite write_Raise by by rewrite encodable_standard_csv_row.
    simpl. by rewrite app_nil_r.
  - cbn [app for_each_io]. rewrite csv_row_standard.
    rewrite write_Ok by by apply encodable_standard_csv_row.
    rewrite IH. cbn [fmap list_fmap concat]. by rewrite <-app_assoc.
Qed.

Lemma rows_split (data : list listing) :
  Forall row_ok data ∨
  ∃ written r rest, data = written ++ r :: rest ∧ Forall row_ok written ∧ ¬ row_ok r.
Proof.
  induction data as [|[name phone] data IH]; [by left|].
  assert (row_ok (name, phone) ∨ ¬ row_ok (name, phone)) as [Hok|Hbad].
  { simpl. destruct (encode name) as [bs1|e1] eqn:H1.
    - destruct (encode phone) as [bs2|e2] eqn:H2.
      + left. split; by eexists.
      + right. intros [_ ?]. by eapply encode_Raise_not_encodable.
    - right. intros [? _]. by eapply encode_Raise_not_encodable. }
  - destruct IH as [Hall|(written & r & rest & -> & Hall & Hr)].
    + left. by constructor.
    + right. exists ((name, phone) :: written), r, rest.
      split; [done|]. split; [by constructor|done].
  - right. by exists [], (name, phone), data.
Qed.

Abbreviation header_row := (py "Restaurant Name,Phone Number" ++ [13; 10]).

(** The three ways [save_to_csv] ends. *)
Lemma save_to_csv_refused (data : list listing) (filename : str) (w : world) e :
  open_error filename = Some e → save_to_csv data filename w = (Raise e, w).
Proof. intros H. unfold save_to_csv, open_w. by rewrite H. Qed.

Lemma save_to_csv_header (data : list listing) (filename : str) (w : world) :
  open_error filename = None →
  save_to_csv data filename w =
  for_each_io (writerow filename) data
    (mkWorld (<[filename := header_row]> (files w)) (console w)).
Proof.
  intros H. unfold save_to_csv, open_w. rewrite H.
  rewrite write_Ok by by eexists. reflexivity.
Qed.

Lemma save_to_csv_Ok (data : list listing) (filename : str) (w : world) :
  open_error filename = None → Forall row_ok data →
  save_to_csv data filename w =
  (Ok tt,
   mkWorld (<[filename := header_row ++ concat (standard_csv_row <$> data)]> (files w))
           (console w)).
Proof.
  intros Hopen Hall. rewrite save_to_csv_header by done.
  rewrite write_rows_Ok by done. by rewrite <-!app_assoc.
Qed.

Lemma save_to_csv_partial (written rest : list listing) (r : listing)
    (filename : str) (w : world) :
  open_error filename = None → Forall row_ok written → ¬ row_ok r →
  save_to_csv (written ++ r :: rest) filename w =
  (Raise UnicodeEncodeError,
   mkWorld (<[filename := header_row ++ concat (standard_csv_row <$> written)]> (files w))
           (console w)).
Proof.
  intros Hopen Hall Hr. rewrite save_to_csv_header by done.
  rewrite write_rows_Raise by done. by rewrite <-!app_assoc.
Qed.

Lemma fsencode_ascii s : Forall (λ c, c < 128) s → fsencode s = Some s.
Proof.
  induction 1 as [|c s Hc _ IH]; [done|]. simpl. rewrite IH.
  unfold fsencode_char, encode_char.
  destruct (N.leb_spec 56448 c); [lia|]. simpl.
  by destruct (N.ltb_spec c 128); [|lia].
Qed.

Lemma contains_false c s : Forall (λ x, x ≠ c) s → contains c s = false.
Proof.
  induction 1 as [|x s Hx _ IH]; [done|]. unfold contains in *. cbn [existsb].
  rewrite IH, orb_false_r. apply N.eqb_neq. congruence.
Qed.





End Writer.

(** ** The name of the output file is accepted *)

Section OutputFile.

Local Open Scope N_scope.

Lemma quote_plus_chars location quoted :
  quote_plus location = Ok quoted →
  Forall (λ c, always_safe c = true ∨ c = 37 ∨ c = 43) quoted.
Proof.
  rewrite quote_plus_spec.
  destruct (encode location) as [bs|] eqn:Hencode; [|done]. intros [= <-].
  destruct (encode_spec _ _ Hencode) as [Hbytes _]. clear Hencode.
  induction Hbytes as [|b bs Hb _ IH]; [constructor|].
  simpl. apply Forall_app. split; [by apply quote_plus_byte_alphabet|done].
Qed.

(** The output file of a quoted location is refused only for its length. *)
Lemma output_filename_accepted location quoted :
  quote_plus location = Ok quoted →
  (length (output_filename quoted) ≤ NAME_MAX)%nat →
  open_error (output_filename quoted) = None.
Proof.
  intros Hquote Hlen.
  assert (Forall (λ c, c < 128 ∧ c ≠ 0 ∧ c ≠ 47) (output_filename quoted)) as Hchars.
  { assert (∀ c, always_safe c = true ∨ c = 37 ∨ c = 43 → c < 128 ∧ c ≠ 0 ∧ c ≠ 47)
      as Hc.
    { intros c [Hc|[->| ->]]; [|done..].
      split; [by apply always_safe_ascii|]. split; by intros ->. }
    unfold output_filename. rewrite !Forall_app. repeat split.
    - apply Forall_forall. intros c Hin. apply Hc. left.
      repeat (apply elem_of_cons in Hin as [->|Hin]; [reflexivity|]).
      by apply elem_of_nil in Hin.
    - eapply Forall_impl; [by eapply quote_plus_chars|]. apply Hc.
    - apply Forall_forall. intros c Hin. apply Hc. left.
      repeat (apply elem_of_cons in Hin as [->|Hin]; [reflexivity|]).
      by apply elem_of_nil in Hin. }
  unfold open_error.
  rewrite fsencode_ascii by (eapply Forall_impl; [done|]; by intros c (? & ? & ?)).
  rewrite !contains_false by (eapply Forall_impl; [done|]; by intros c (? & ? & ?)).
  rewrite (bool_decide_eq_false_2 (_ < _)%nat) by lia.
  assert (∃ rest, output_filename quoted = 114 :: 101 :: 115 :: rest) as [rest ->].
  { by eexists. }
  rewrite !bool_decide_eq_false_2; [done| |done].
  intros [[=]|[[=]|[]%elem_of_nil]%elem_of_cons]%elem_of_cons.
Qed.

End OutputFile.

(** ** The script with its writer *)

Section ScriptProperties.

Context (_check_bracketed_netloc : str → bool) (nfkc_netloc_ok : str → bool).
Context (requests_get : str → response).

Local Abbreviation get_next_page_url :=
  (get_next_page_url _check_bracketed_netloc nfkc_netloc_ok).
Local Abbreviation crawl :=
  (crawl _check_bracketed_netloc nfkc_netloc_ok requests_get).
Local Abbreviation visits :=
  (visits _check_bracketed_netloc nfkc_netloc_ok requests_get).
Local Abbreviation scrape_yellow_pages :=
  (scrape_yellow_pages _check_bracketed_netloc nfkc_netloc_ok requests_get).
Local Abbreviation main :=
  (main _check_bracketed_netloc nfkc_netloc_ok requests_get).

Lemma open_error_exit_status filename e :
  open_error filename = Some e → exit_status e = 1%Z.
Proof. unfold open_error. repeat case_match; by intros [= <-]. Qed.

(** The ways a run with a location argument ends. *)
Lemma main_cases fuel argv w status w' :
  main fuel argv w = Some (status, w') →
  (status = 0%Z ∧
   ∃ location quoted results,
     argv !! 1%nat = Some location ∧
     quote_plus location = Ok quoted ∧
     scrape_yellow_pages fuel location w = Some (Ok results, w) ∧
     open_error (output_filename quoted) = None ∧
     Forall (λ r, encodable r.1 ∧ encodable r.2) results ∧
     w' = mkWorld
            (<[output_filename quoted :=
                 py "Restaurant Name,Phone Number" ++ [13; 10]%N
                 ++ concat (standard_csv_row <$> results)]> (files w))
            (console w ++ [py "Saved results to " ++ output_filename quoted]))
  ∨ (status = 1%Z ∧ files w' = files w)
  ∨ (status = 1%Z ∧
     ∃ location quoted results written r rest,
       argv !! 1%nat = Some location ∧
       quote_plus location = Ok quoted ∧
       scrape_yellow_pages fuel location w = Some (Ok results, w) ∧
       results = written ++ r :: rest ∧
       Forall (λ r, encodable r.1 ∧ encodable r.2) written ∧
       ¬ (encodable r.1 ∧ encodable r.2) ∧
       w' = mkWorld
              (<[output_filename quoted :=
                   py "Restaurant Name,Phone Number" ++ [13; 10]%N
                   ++ concat (standard_csv_row <$> written)]> (files w))
              (console w)).
Proof.
  destruct argv as [|script [|location rest]];
    try (intros [= <- <-]; by right; left).
  rewrite main_unfold.
  destruct (scrape_yellow_pages fuel location w) as [[[results|e] w1]|] eqn:Hscrape;
    [| |done].
  - destruct (scrape_yellow_pages_world _ _ _ _ _ _ _ _ Hscrape) as [_ Hw].
    rewrite (Hw results eq_refl) in *.
    destruct (quote_plus location) as [quoted|e] eqn:Hquote;
      [|by rewrite scrape_yellow_pages_unfold, Hquote in Hscrape].
    destruct (open_error (output_filename quoted)) as [e|] eqn:Hopen.
    { rewrite (save_to_csv_refused _ _ _ _ Hopen). intros [= <- <-].
      right. left. split; [by eapply open_error_exit_status|done]. }
    destruct (rows_split results) as [Hall|(written & r & rest' & -> & Hall & Hr)].
    + rewrite save_to_csv_Ok by done. intros [= <- <-]. left. split; [done|].
      exists location, quoted, results.
      repeat split; try done; unfold print; simpl; by rewrite <-?app_assoc.
    + rewrite save_to_csv_partial by done. intros [= <- <-]. right. right.
      split; [done|]. exists location, quoted, (written ++ r :: rest'), written, r, rest'.
      repeat split; try done; try tauto; by rewrite <-?app_assoc.
  - intros [= <- <-]. right. left.
    destruct (scrape_yellow_pages_world _ _ _ _ _ _ _ _ Hscrape) as [Hfiles _].
    split; [|done].
    rewrite scrape_yellow_pages_unfold in Hscrape.
    destruct (quote_plus location) as [quoted|e'] eqn:Hquote.
    + by eapply crawl_exit_status.
    + injection Hscrape as <- <-. by rewrite (quote_plus_raises _ _ Hquote).
Qed.

(** X2: a run that ends has exit status 0 or 1.  With status 0 the output
    file holds the header row and the rows of the whole list the scraper
    returned, no other file has changed and the console has one more line.
    With status 1 either no file has changed, or a listing could not be
    encoded and the output file holds the header row and the rows of the
    listings before it, with every other file and the console unchanged. *)
Theorem main_status_and_files fuel argv w status w' :
  main fuel argv w = Some (status, w') →
  (status = 0%Z ∧
   ∃ location quoted results,
     argv !! 1%nat = Some location ∧
     quote_plus location = Ok quoted ∧
     scrape_yellow_pages fuel location w = Some (Ok results, w) ∧
     open_error (output_filename quoted) = None ∧
     Forall (λ r, encodable r.1 ∧ encodable r.2) results ∧
     w' = mkWorld
            (<[output_filename quoted :=
                 py "Restaurant Name,Phone Number" ++ [13; 10]%N
                 ++ concat (standard_csv_row <$> results)]> (files w))
            (console w ++ [py "Saved results to " ++ output_filename quoted]))
  ∨ (status = 1%Z ∧ files w' = files w)
  ∨ (status = 1%Z ∧
     ∃ location quoted results written r rest,
       argv !! 1%nat = Some location ∧
       quote_plus location = Ok quoted ∧
       scrape_yellow_pages fuel location w = Some (Ok results, w) ∧
       results = written ++ r :: rest ∧
       Forall (λ r, encodable r.1 ∧ encodable r.2) written ∧
       ¬ (encodable r.1 ∧ encodable r.2) ∧
       w' = mkWorld
              (<[output_filename quoted :=
                   py "Restaurant Name,Phone Number" ++ [13; 10]%N
                   ++ concat (standard_csv_row <$> written)]> (files w))
              (console w)).
Proof. apply main_cases. Qed.

(** X3: when the chain of next links ends, every page is extracted, every
    name and phone can be encoded in UTF-8 and the name of the output file
    has at most [NAME_MAX] characters, the script exits with status 0 and
    the output file, named after the quoted location, holds the header row
    and then one row in the standard CSV form for each listing of each
    page, in the order of the pages; with no listing at all the file is the
    header row alone. *)
Theorem main_writes_all_pages
    script location rest quoted w pages u' results fuel :
  quote_plus location = Ok quoted →
  visits (Some (search_url quoted)) pages u' →
  truthy u' = false →
  Forall2 (λ soup restaurants, parse_restaurants soup = Ok restaurants)
          pages results →
  length pages ≤ fuel →
  length (output_filename quoted) ≤ NAME_MAX →
  Forall (λ r, encodable r.1 ∧ encodable r.2) (concat results) →
  main fuel (script :: location :: rest) w =
  Some (0%Z,
        mkWorld
          (<[output_filename quoted :=
               py "Restaurant Name,Phone Number" ++ [13; 10]%N
               ++ concat (standard_csv_row <$> concat results)]> (files w))
          (console w ++ [py "Saved results to " ++ output_filename quoted])).
Proof.
  intros Hquote Hchain Hend Hparse Hfuel Hlen Henc.
  rewrite main_unfold, scrape_yellow_pages_unfold, Hquote.
  rewrite (crawl_finite_chain _ _ _ _ _ _ Hchain results fuel [] w Hend Hparse Hfuel).
  rewrite save_to_csv_Ok by (by eapply output_filename_accepted || done).
  unfold print. simpl. by rewrite <-?app_assoc.
Qed.

(** X5: running the script again with the same arguments, on the world a
    successful run has left, succeeds again and leaves every file as it
    is: the output file is written anew with the same content. *)
Theorem main_rerun_same_files fuel argv w w1 :
  main fuel argv w = Some (0%Z, w1) →
  ∃ w2, main fuel argv w1 = Some (0%Z, w2) ∧ files w2 = files w1.
Proof.
  intros Hrun.
  destruct (main_cases _ _ _ _ _ Hrun)
    as [[_ (location & quoted & results & Hloc & Hquote & Hscrape & Hopen & Henc & ->)]
       |[[? _]|[? _]]]; [|done..].
  destruct argv as [|script [|location' rest]]; try done.
  simpl in Hloc. injection Hloc as ->.
  rewrite main_unfold.
  rewrite scrape_yellow_pages_unfold, Hquote in Hscrape.
  destruct (crawl_Ok_any_world _ _ _ _ _ _ _ _ _
              (mkWorld
                 (<[output_filename quoted :=
                      py "Restaurant Name,Phone Number" ++ [13; 10]%N
                      ++ concat (standard_csv_row <$> results)]> (files w))
                 (console w ++ [py "Saved results to " ++ output_filename quoted]))
              Hscrape) as [_ Hagain].
  rewrite scrape_yellow_pages_unfold, Hquote, Hagain.
  rewrite save_to_csv_Ok by done.
  eexists. split; [done|]. unfold print. simpl.
  by rewrite insert_insert_eq, <-?app_assoc.
Qed.

End ScriptProperties.

(** ** The end-to-end scenario *)

Lemma quote_plus_chicago : quote_plus (py "Chicago, IL") = Ok (py "Chicago%2C+IL").
Proof. reflexivity. Qed.

(** C8: take the location [Chicago, IL] and a site whose first URL gives a
    page with two listing blocks, one with a website link and one without
    it, named [Joe's Diner] with phone [(312) 555-0100], and with no further
    page.  The location is quoted as [Chicago%2C+IL] (the comma as [%2C],
    the space as [+]), and the script exits with status 0 leaving a file
    [restaurants_without_websites_Chicago%2C+IL.csv] that holds the header
    row and the row [Joe's Diner,(312) 555-0100]. *)
Theorem chicago_end_to_end check1 check2 requests_get
    script soup with_site without_site fuel w :
  requests_get (search_url (py "Chicago%2C+IL")) = Page soup →
  listing_blocks soup = [with_site; without_site] ∨
  listing_blocks soup = [without_site; with_site] →
  is_Some (website_link with_site) →
  is_Some (name_element with_site) →
  website_link without_site = None →
  restaurant_name without_site = Ok (py "Joe's Diner") →
  phone_number without_site = py "(312) 555-0100" →
  get_next_page_url check1 check2 soup base_url = Ok None →
  quote_plus (py "Chicago, IL") = Ok (py "Chicago%2C+IL") ∧
  main check1 check2 requests_get (S fuel) [script; py "Chicago, IL"] w =
  Some (0%Z,
        mkWorld
          (<[py "restaurants_without_websites_Chicago%2C+IL.csv" :=
               py "Restaurant Name,Phone Number" ++ [13; 10]%N
               ++ py "Joe's Diner,(312) 555-0100" ++ [13; 10]%N]> (files w))
          (console w ++
           [py "Saved results to restaurants_without_websites_Chicago%2C+IL.csv"])).
Proof.
  intros Hget Hblocks [link Hlink] Hname Hnolink Hjoe Hphone Hnext.
  split; [reflexivity|].
  assert (parse_restaurants soup = Ok [(py "Joe's Diner", py "(312) 555-0100")])
    as Hparse.
  { destruct (restaurant_name_Ok _ Hname) as [other Hother].
    unfold parse_restaurants.
    destruct Hblocks as [-> | ->];
      rewrite !for_each_cons, !parse_restaurant_unfold, ?Hother, ?Hlink, ?Hjoe,
        ?Hnolink, ?Hphone; try reflexivity;
      rewrite !for_each_cons, !parse_restaurant_unfold, ?Hother, ?Hlink, ?Hjoe,
        ?Hnolink, ?Hphone; reflexivity. }
  rewrite main_unfold, scrape_yellow_pages_unfold, quote_plus_chicago.
  rewrite (crawl_last_page check1 check2 requests_get fuel
             (search_url (py "Chicago%2C+IL")) [] w soup _ eq_refl Hget Hparse Hnext).
  rewrite save_to_csv_Ok;
    [|reflexivity|repeat constructor; by eexists].
  unfold print. simpl files. simpl console.
  do 3 f_equal.
Qed.

(** X15: the file that a returning [save_to_csv] has written tells the list
    it was written from: two lists whose files have the same content are
    the same list, so the quoting neither loses a listing nor merges two. *)
Theorem save_to_csv_inj data1 data2 filename w1 w2 w1' w2' :
  save_to_csv data1 filename w1 = (Ok tt, w1') →
  save_to_csv data2 filename w2 = (Ok tt, w2') →
  files w1' !! filename = files w2' !! filename →
  data1 = data2.
Proof.
  intros H1 H2.
  destruct (open_error filename) as [e|] eqn:Hopen;
    [by rewrite (save_to_csv_refused _ _ _ _ Hopen) in H1|].
  destruct (rows_split data1) as [Hall1|(written & r & rest & -> & Hall & Hr)];
    [|by rewrite save_to_csv_partial in H1].
  destruct (rows_split data2) as [Hall2|(written & r & rest & -> & Hall & Hr)];
    [|by rewrite save_to_csv_partial in H2].
  rewrite save_to_csv_Ok in H1 by done. rewrite save_to_csv_Ok in H2 by done.
  apply (f_equal snd) in H1, H2. cbn [snd] in H1, H2. subst w1' w2'. cbn [files].
  rewrite !lookup_insert_eq. intros H. apply (inj Some) in H.
  apply app_inv_head in H. apply csv_rows_inj.
  assert (∀ data : list listing,
            (λ r, csv_row [r.1; r.2]) <$> data = standard_csv_row <$> data) as Hrows.
  { intros data. apply list_fmap_ext. intros _ [name phone] _.
    apply csv_row_standard. }
  by rewrite !Hrows.
Qed.

(** ** The writer and the script on the mock pages *)



Lemma chicago_end_to_end_mock :
  quote_plus (py "Chicago, IL") = Ok (py "Chicago%2C+IL") ∧
  main accept accept chicago_site 1 argv_chicago empty_world =
  Some (0%Z,
        mkWorld
          (<[py "restaurants_without_websites_Chicago%2C+IL.csv" :=
               py "Restaurant Name,Phone Number" ++ [13; 10]%N
               ++ py "Joe's Diner,(312) 555-0100" ++ [13; 10]%N]> (files empty_world))
          (console empty_world ++
           [py "Saved results to restaurants_without_websites_Chicago%2C+IL.csv"])).
Proof.
  apply (chicago_end_to_end accept accept chicago_site (py "yellow-scraper.py")
           chicago_page acme_grill joes_diner 0 empty_world).
  - reflexivity.
  - left. reflexivity.
  - by eexists.
  - by eexists.
  - reflexivity.
  - reflexivity.
  - reflexivity.
  - reflexivity.
Defined.

Lemma main_status_and_files_surrogate :
  (1%Z = 0%Z ∧
   ∃ location quoted results,
     argv_chicago !! 1%nat = Some location ∧
     quote_plus location = Ok quoted ∧
     scrape_yellow_pages accept accept surrogate_site 1 location empty_world =
       Some (Ok results, empty_world) ∧
     open_error (output_filename quoted) = None ∧
     Forall (λ r, encodable r.1 ∧ encodable r.2) results ∧
     surrogate_world =
     mkWorld
       (<[output_filename quoted :=
            py "Restaurant Name,Phone Number" ++ [13; 10]%N
            ++ concat (standard_csv_row <$> results)]> (files empty_world))
       (console empty_world ++ [py "Saved results to " ++ output_filename quoted]))
  ∨ (1%Z = 1%Z ∧ files surrogate_world = files empty_world)
  ∨ (1%Z = 1%Z ∧
     ∃ location quoted results written r rest,
       argv_chicago !! 1%nat = Some location ∧
       quote_plus location = Ok quoted ∧
       scrape_yellow_pages accept accept surrogate_site 1 location empty_world =
         Some (Ok results, empty_world) ∧
       results = written ++ r :: rest ∧
       Forall (λ r, encodable r.1 ∧ encodable r.2) written ∧
       ¬ (encodable r.1 ∧ encodable r.2) ∧
       surrogate_world =
       mkWorld
         (<[output_filename quoted :=
              py "Restaurant Name,Phone Number" ++ [13; 10]%N
              ++ concat (standard_csv_row <$> written)]> (files empty_world))
         (console empty_world)).
Proof.
  apply (main_status_and_files accept accept surrogate_site 1 argv_chicago empty_world).
  reflexivity.
Defined.

Lemma main_writes_all_pages_chicago :
  main accept accept chicago_site 1 argv_chicago empty_world =
  Some (0%Z,
        mkWorld
          (<[output_filename (py "Chicago%2C+IL") :=
               py "Restaurant Name,Phone Number" ++ [13; 10]%N
               ++ concat (standard_csv_row <$>
                            concat [[(py "Joe's Diner", py "(312) 555-0100")]])]>
             (files empty_world))
          (console empty_world ++
           [py "Saved results to " ++ output_filename (py "Chicago%2C+IL")])).
Proof.
  apply (main_writes_all_pages accept accept chicago_site (py "yellow-scraper.py")
           (py "Chicago, IL") [] (py "Chicago%2C+IL") empty_world [chicago_page] None
           [[(py "Joe's Diner", py "(312) 555-0100")]] 1).
  - reflexivity.
  - exact visits_chicago.
  - reflexivity.
  - repeat constructor.
  - simpl. lia.
  - vm_compute. lia.
  - repeat constructor; by eexists.
Defined.

Lemma main_rerun_same_files_chicago :
  ∃ w2,
    main accept accept chicago_site 1 argv_chicago
      (mkWorld
         (<[py "restaurants_without_websites_Chicago%2C+IL.csv" :=
              py "Restaurant Name,Phone Number" ++ [13; 10]%N
              ++ py "Joe's Diner,(312) 555-0100" ++ [13; 10]%N]> (files empty_world))
         (console empty_world ++
          [py "Saved results to restaurants_without_websites_Chicago%2C+IL.csv"]))
    = Some (0%Z, w2)
    ∧ files w2 =
      <[py "restaurants_without_websites_Chicago%2C+IL.csv" :=
          py "Restaurant Name,Phone Number" ++ [13; 10]%N
          ++ py "Joe's Diner,(312) 555-0100" ++ [13; 10]%N]> (files empty_world).
Proof.
  apply (main_rerun_same_files accept accept chicago_site 1 argv_chicago empty_world).
  vm_compute. reflexivity.
Defined.

(** A comma inside a name and a comma between name and phone are told
    apart. *)
Lemma save_to_csv_inj_comma :
  files (save_to_csv [(py "a,b", py "c")] (py "out.csv") empty_world).2 !! py "out.csv" ≠
  files (save_to_csv [(py "a", py "b,c")] (py "out.csv") empty_world).2 !! py "out.csv".
Proof.
  intros Hsame.
  assert ([(py "a,b", py "c")] = [(py "a", py "b,c")]) as Hdata; [|done].
  apply (save_to_csv_inj [(py "a,b", py "c")] [(py "a", py "b,c")] (py "out.csv")
           empty_world empty_world
           (save_to_csv [(py "a,b", py "c")] (py "out.csv") empty_world).2
           (save_to_csv [(py "a", py "b,c")] (py "out.csv") empty_world).2);
    [reflexivity|reflexivity|exact Hsame].
Defined.

(** ** Resolving a reference against the base *)

Section Resolving.

Local Open Scope N_scope.

Context (check1 check2 : str → bool).

(** A reference without a scheme of its own and without a netloc gets the
    scheme and the netloc of the base and its own resolved path. *)
Lemma urljoin_base_relative url u :
  truthy (Some url) = true →
  urlparse check1 check2 url (py "https") = Ok u →
  scheme u = py "https" → netloc u = [] →
  urljoin check1 check2 base_url url =
  Ok (urlunparse
        (if negb (truthy (Some (path u))) && negb (truthy (Some (params u)))
         then mkParse (py "https") (py "www.yellowpages.com") [] []
                (query u) (fragment u)
         else mkParse (py "https") (py "www.yellowpages.com")
                (resolved_path (path u)) (params u) (query u) (fragment u))).
Proof.
  intros Hurl Hu Hscheme Hnetloc.
  assert (bool_decide (py "https" ∈ uses_relative) = true) as Hrel by reflexivity.
  assert (bool_decide (py "https" ∈ uses_netloc) = true) as Hnet by reflexivity.
  unfold urljoin. rewrite Hurl, urlparse_base.
  change (truthy (Some base_url)) with true.
  cbn [negb mbind outcome_bind scheme netloc path params query fragment].
  rewrite Hu. cbn [mbind outcome_bind].
  rewrite Hscheme, Hnetloc, bool_decide_eq_true_2, Hrel, Hnet by done.
  cbn [negb orb andb truthy].
  destruct (negb _ && negb _); [|reflexivity].
  by destruct (query u).
Qed.

Lemma find_from_None c s : Forall (λ x, x ≠ c) s → find_from c 0 s = None.
Proof.
  induction 1 as [|x s Hx _ IH]; [done|]. simpl. rewrite IH.
  by destruct (N.eqb_spec x c).
Qed.

Lemma find_from_app c a b :
  Forall (λ x, x ≠ c) a → find_from c 0 (a ++ c :: b) = Some (length a).
Proof.
  induction 1 as [|x a Hx _ IH]; simpl.
  - by rewrite N.eqb_refl.
  - rewrite IH. by destruct (N.eqb_spec x c).
Qed.

Lemma split_first_None c s : Forall (λ x, x ≠ c) s → split_first c s = None.
Proof. intros H. unfold split_first. by rewrite find_from_None. Qed.

Lemma split_first_app c a b :
  Forall (λ x, x ≠ c) a → split_first c (a ++ c :: b) = Some (a, b).
Proof.
  intros H. unfold split_first. rewrite find_from_app by done. cbn.
  assert (take (length a) (a ++ c :: b) = a) as -> by apply take_app_length.
  assert (drop (S (length a)) (a ++ c :: b) = b) as ->; [|done].
  clear H. induction a as [|x a IH]; [done|]. exact IH.
Qed.

Lemma remove_unsafe_id s :
  Forall (λ c, unsafe_url_byte c = false) s → remove_unsafe s = s.
Proof.
  induction 1 as [|c s Hc _ IH]; [done|]. unfold remove_unsafe in *. simpl.
  by rewrite Hc, IH.
Qed.

Lemma split_not_nil sep s : split sep s ≠ [].
Proof. destruct s as [|x s]; simpl; [done|]. by repeat case_match. Qed.

(** Joining the segments of a string gives the string back. *)
Lemma join_split sep s : join [sep] (split sep s) = s.
Proof.
  induction s as [|x s IH]; [done|]. simpl.
  destruct (N.eqb_spec x sep) as [->|Hx].
  - pose proof (split_not_nil sep s) as Hne.
    destruct (split sep s) as [|seg segs]; [done|].
    change (join [sep] ([] :: seg :: segs)) with ([sep] ++ join [sep] (seg :: segs)).
    by rewrite IH.
  - pose proof (split_not_nil sep s) as Hne.
    destruct (split sep s) as [|seg segs]; [done|].
    destruct segs as [|seg' segs].
    + simpl in *. by rewrite IH.
    + change (join [sep] ((x :: seg) :: seg' :: segs))
        with (x :: (seg ++ [sep] ++ join [sep] (seg' :: segs))).
      change (join [sep] (seg :: seg' :: segs))
        with (seg ++ [sep] ++ join [sep] (seg' :: segs)) in IH.
      by rewrite IH.
Qed.

(** Segments that are neither [.] nor [..] pass through the loop. *)
Lemma foldl_resolve_segment_plain segments :
  ∀ resolved,
    Forall (λ seg, seg ≠ py "." ∧ seg ≠ py "..") segments →
    foldl resolve_segment resolved segments = resolved ++ segments.
Proof.
  induction segments as [|seg segments IH]; intros resolved Hall; simpl.
  - by rewrite app_nil_r.
  - apply Forall_cons in Hall as [[Hdot Hdots] Hall].
    rewrite IH by done. unfold resolve_segment.
    rewrite !bool_decide_eq_false_2 by done. by rewrite <-app_assoc.
Qed.

Lemma last_Forall {A} (P : A → Prop) (l : list A) d :
  Forall P l → l ≠ [] → P (List.last l d).
Proof.
  induction 1 as [|x l Hx Hl IH]; [done|]. intros _.
  destruct l as [|y l]; [done|]. apply IH. done.
Qed.

(** A path that begins with one slash and has no dot segment is its own
    resolved path. *)
Lemma resolved_path_plain p :
  Forall (λ seg, seg ≠ py "." ∧ seg ≠ py "..") (split 47 (47 :: p)) →
  resolved_path (47 :: p) = 47 :: p.
Proof.
  intros Hsegs. unfold resolved_path.
  rewrite (bool_decide_eq_true_2 (take 1 (47 :: p) = py "/")) by done.
  rewrite foldl_resolve_segment_plain by done. rewrite app_nil_l.
  rewrite bool_decide_eq_false_2.
  - change (py "/") with [47]. by rewrite join_split.
  - intros Hlast.
    pose proof (last_Forall _ _ [] Hsegs (split_not_nil _ _)) as [Hdot Hdots].
    apply elem_of_cons in Hlast as [?|Hlast]; [done|].
    apply elem_of_cons in Hlast as [?|Hlast]; [done|].
    by apply elem_of_nil in Hlast.
Qed.

(** The parts [urlparse] finds in a reference that is an absolute path with
    an optional query. *)
Lemma urlparse_path_query p query_string :
  head p ≠ Some 47 →
  Forall (λ c, unsafe_url_byte c = false ∧ c ≠ 35 ∧ c ≠ 59 ∧ c ≠ 63) p →
  Forall (λ c, unsafe_url_byte c = false ∧ c ≠ 35) query_string →
  urlparse check1 check2
    ((47 :: p) ++ match query_string with [] => [] | _ => 63 :: query_string end)
    (py "https") =
  Ok (mkParse (py "https") [] (47 :: p) [] query_string []).
Proof.
  intros Hhead Hp Hq.
  set (url := (47 :: p) ++ match query_string with
                           | [] => []
                           | _ => 63 :: query_string
                           end).
  assert (url = 47 :: (p ++ match query_string with
                            | [] => []
                            | _ => 63 :: query_string
                            end)) as Hcons by done.
  assert (Forall (λ c, unsafe_url_byte c = false ∧ c ≠ 35) url) as Hurl.
  { unfold url. apply Forall_app. split.
    - constructor; [done|]. eapply Forall_impl; [exact Hp|]. by intros c (? & ? & _).
    - destruct query_string; [constructor|]. by constructor. }
  assert (Forall (λ c, c ≠ 59 ∧ c ≠ 63) (47 :: p)) as Hpath.
  { constructor; [done|]. eapply Forall_impl; [exact Hp|]. by intros c (_ & _ & ? & ?). }
  unfold urlparse, urlsplit.
  assert (lstrip_by c0_control_or_space url = url) as -> by by rewrite Hcons.
  change (strip_by c0_control_or_space (py "https")) with (py "https").
  change (remove_unsafe (py "https")) with (py "https").
  rewrite remove_unsafe_id by (eapply Forall_impl; [exact Hurl|]; by intros c [? _]).
  assert (match find_from 58 0 url with
          | Some i =>
              if bool_decide (0 < i)%nat && is_ascii_alpha (List.hd 0 url)
                 && forallb scheme_char (take i url)
              then (lower (take i url), drop (S i) url)
              else (py "https", url)
          | None => (py "https", url)
          end = (py "https", url)) as ->.
  { destruct (find_from 58 0 url); [|done].
    rewrite Hcons. cbn [List.hd].
    change (is_ascii_alpha 47) with false. by rewrite andb_false_r. }
  assert (bool_decide (take 2 url = py "//") = false) as ->.
  { apply bool_decide_eq_false_2. rewrite Hcons.
    destruct p as [|c p]; [by destruct query_string|].
    simpl. intros [= ->]. by destruct Hhead. }
  cbn [mbind outcome_bind].
  rewrite split_first_None by (eapply Forall_impl; [exact Hurl|]; by intros c [_ ?]).
  cbn [default].
  assert (default (url, []) (split_first 63 url) = (47 :: p, query_string)) as ->.
  { unfold url. destruct query_string as [|q query_string].
    - rewrite app_nil_r, split_first_None; [done|].
      eapply Forall_impl; [exact Hpath|]. by intros x [_ ?].
    - rewrite split_first_app; [done|].
      eapply Forall_impl; [exact Hpath|]. by intros x [_ ?]. }
  change (_checknetloc check2 []) with (Ok tt). cbn [mbind outcome_bind].
  assert (contains 59 (47 :: p) = false) as ->.
  { unfold contains. apply not_true_iff_false. rewrite existsb_exists.
    intros (c & Hin & Hc). apply N.eqb_eq in Hc as <-.
    apply list_elem_of_In in Hin. rewrite Forall_forall in Hpath.
    by destruct (Hpath _ Hin). }
  by rewrite andb_false_r.
Qed.

(** An absolute path without dot segments, with or without a query, is
    appended to the base. *)
Lemma urljoin_base_path_query p query_string :
  head p ≠ Some 47 →
  Forall (λ c, unsafe_url_byte c = false ∧ c ≠ 35 ∧ c ≠ 59 ∧ c ≠ 63) p →
  Forall (λ seg, seg ≠ py "." ∧ seg ≠ py "..") (split 47 (47 :: p)) →
  Forall (λ c, unsafe_url_byte c = false ∧ c ≠ 35) query_string →
  urljoin check1 check2 base_url
    ((47 :: p) ++ match query_string with [] => [] | _ => 63 :: query_string end) =
  Ok (base_url ++ (47 :: p)
      ++ match query_string with [] => [] | _ => 63 :: query_string end).
Proof.
  intros Hhead Hp Hsegs Hq.
  rewrite (urljoin_base_relative _ (mkParse (py "https") [] (47 :: p) [] query_string []));
    [|done|by apply urlparse_path_query|done|done].
  cbn [path params query fragment truthy negb andb].
  rewrite resolved_path_plain by done.
  destruct query_string as [|c query_string].
  - rewrite !app_nil_r. vm_compute. reflexivity.
  - vm_compute. reflexivity.
Qed.

End Resolving.

(** ** The next link, resolved *)

(** C4 (amended): with the base URL of the script, a next anchor whose
    [href] is [/search?page=2] gives
    [https://www.yellowpages.com/search?page=2].  For a non-empty [href] in
    general: if [urlparse] rejects it, its exception is raised; an [href]
    with a scheme other than [https] is returned as it is; an [href] with a
    netloc under the scheme [https] is returned as [urlunparse] puts its
    parsed components together again; any other [href] gets the scheme and
    the host of the base, and keeps its query and its fragment: with neither
    a path nor params it has no path, otherwise its path is its own with
    the dot segments resolved, and its params are kept.  So an [href] that
    is an absolute path without dot segments, without [;], [#], tab, CR or
    LF, with or without a query, gives the base URL followed by the [href];
    a relative path is taken from the root, [..] at the root stays at the
    root, and an [href] that is only a query or only a fragment is put
    right after the host. *)
Theorem get_next_page_url_resolves check1 check2 soup next_button :
  find (py "a") (py "next") soup = Some next_button →
  (get (py "href") next_button = Some (py "/search?page=2") →
   get_next_page_url check1 check2 soup (py "https://www.yellowpages.com") =
   Ok (Some (py "https://www.yellowpages.com/search?page=2")))
  ∧ (∀ href,
       get (py "href") next_button = Some href →
       truthy (Some href) = true →
       (∀ e, urlparse check1 check2 href (py "https") = Raise e →
             get_next_page_url check1 check2 soup base_url = Raise e)
       ∧ (∀ u, urlparse check1 check2 href (py "https") = Ok u →
            (scheme u ≠ py "https" →
             get_next_page_url check1 check2 soup base_url = Ok (Some href))
            ∧ (scheme u = py "https" → netloc u ≠ [] →
               get_next_page_url check1 check2 soup base_url =
               Ok (Some (urlunparse u)))
            ∧ (scheme u = py "https" → netloc u = [] →
               get_next_page_url check1 check2 soup base_url =
               Ok (Some
                     (urlunparse
                        (if negb (truthy (Some (path u)))
                            && negb (truthy (Some (params u)))
                         then mkParse (py "https") (py "www.yellowpages.com") [] []
                                (query u) (fragment u)
                         else mkParse (py "https") (py "www.yellowpages.com")
                                (resolved_path (path u)) (params u)
                                (query u) (fragment u))))
               ∧ ∃ rest, get_next_page_url check1 check2 soup base_url =
                         Ok (Some (base_url ++ rest)))))
  ∧ (∀ p query_string,
       head p ≠ Some 47%N →
       Forall (λ c, unsafe_url_byte c = false ∧ c ≠ 35 ∧ c ≠ 59 ∧ c ≠ 63)%N p →
       Forall (λ seg, seg ≠ py "." ∧ seg ≠ py "..") (split 47 (47%N :: p)) →
       Forall (λ c, unsafe_url_byte c = false ∧ c ≠ 35%N) query_string →
       ∀ href,
         href = (47%N :: p)
                ++ match query_string with [] => [] | _ => 63%N :: query_string end →
         get (py "href") next_button = Some href →
         get_next_page_url check1 check2 soup base_url = Ok (Some (base_url ++ href)))
  ∧ Forall (λ '(href, resolved),
              get (py "href") next_button = Some href →
              get_next_page_url check1 check2 soup base_url =
              Ok (Some (base_url ++ resolved)))
      [ (py "search?page=2", py "/search?page=2");
        (py "../search?page=2", py "/search?page=2");
        (py "/a/./b/../c", py "/a/c");
        (py "/a/b/..", py "/a/");
        (py "a//b/", py "/a/b/");
        (py "./", py "/");
        (py "/search;x=1?page=2#f", py "/search;x=1?page=2#f");
        (py "?page=2", py "?page=2");
        (py "#top", py "#top") ].
Proof.
  intros Hfind. split; [|split; [|split]].
  - intros Hhref.
    by rewrite (get_next_page_url_href _ _ _ _ _ _ Hfind Hhref eq_refl).
  - intros href Hhref Htruthy.
    rewrite (get_next_page_url_href _ _ _ _ _ _ Hfind Hhref Htruthy).
    split.
    + intros e He. unfold urljoin. rewrite Htruthy, urlparse_base.
      change (truthy (Some base_url)) with true.
      cbn [negb mbind outcome_bind scheme]. by rewrite He.
    + intros u Hu.
      destruct (urljoin_base check1 check2 href u Htruthy Hu) as (H1 & H2 & H3).
      split; [|split].
      * intros Hs. by rewrite (H1 Hs).
      * intros Hs Hn. by rewrite (H2 Hs Hn).
      * intros Hs Hn. split.
        -- by rewrite (urljoin_base_relative check1 check2 href u Htruthy Hu Hs Hn).
        -- destruct (H3 Hs Hn) as [rest ->]. by exists rest.
  - intros p query_string Hhead Hp Hsegs Hq href -> Hhref.
    rewrite (get_next_page_url_href _ _ _ _ _ _ Hfind Hhref eq_refl).
    by rewrite urljoin_base_path_query.
  - repeat constructor; intros Hhref;
      by rewrite (get_next_page_url_href _ _ _ _ _ _ Hfind Hhref eq_refl).
Qed.

Lemma get_next_page_url_resolves_first_page :
  get_next_page_url accept accept first_page (py "https://www.yellowpages.com") =
  Ok (Some (py "https://www.yellowpages.com/search?page=2")).
Proof.
  apply (proj1 (get_next_page_url_resolves accept accept first_page
                  (next_anchor (py "/search?page=2")) eq_refl)).
  reflexivity.
Defined.
